(** * Smart Study Partner: quiz generation, grading and session state

    A shallow embedding of [Main.py]: the response clean-up and decoding of
    [generate_quiz], the option shuffle, the Streamlit session state with its
    button handlers, the grading of the results view and the history ledger,
    followed by the properties of the specification proved about them.

    Conventions of the embedding:
    - a Python [str] is the list of its Unicode code points ([list N]);
    - the three regular expressions are patterns for a small backtracking
      matcher ([Re]); [ReFacts] proves what each of them comes to;
    - a value decoded from JSON is a [JSON] tree, a [dict] being the list of
      its items in insertion order;
    - the decoder [json.loads], the text of the interpreter's built-in
      exceptions, the HTTP reply and the random draws are supplied by the
      environment;
    - [datetime.now()] is a sequence of readings, one per call;
    - a percentage is a binary64 number ([float]), computed by the two
      roundings of line 592; [GradingFacts.float_bands_agree] compares its
      bands with those of the exact quotient;
    - a button is pressed on the page as a run of the script drew it, and
      the press is handled by the next run ([App.press], [App.click]). *)

From Stdlib Require Import ZArith NArith Floats String Ascii DecimalString.
From stdpp Require Import base list gmap.

#[local] Set Warnings "-register-all".


(** ** Python strings *)

Module PyStr.
#[local] Open Scope N_scope.

(** A [str]: its code points, in order. *)
Definition pystr : Type := list N.

(** An ASCII literal as a [str]. *)
Definition py (s : string) : pystr :=
  map N_of_ascii (list_ascii_of_string s).

(** A literal in which ['] stands for the double quote. *)
Definition pyq (s : string) : pystr :=
  map (fun c : N => if c =? 39 then 34 else c) (py s).

Definition backtick : N := 96.
Definition newline : N := 10.
Definition lbrace : N := 123.
Definition rbrace : N := 125.

(** [str.isspace] on one code point, which is also the class [\s] of [re] on
    [str] patterns: the characters CPython's [_PyUnicode_IsWhitespace]
    accepts. *)
Definition isspace (c : N) : bool :=
  ((9 <=? c) && (c <=? 13)) || ((28 <=? c) && (c <=? 32))
  || (c =? 0x85) || (c =? 0xA0) || (c =? 0x1680)
  || ((0x2000 <=? c) && (c <=? 0x200A))
  || (c =? 0x2028) || (c =? 0x2029) || (c =? 0x202F) || (c =? 0x205F)
  || (c =? 0x3000).

(** [s.lstrip()] *)
Fixpoint lstrip (s : pystr) : pystr :=
  match s with
  | [] => []
  | c :: r => if isspace c then lstrip r else s
  end.

(** [s.rstrip()] *)
Fixpoint rstrip (s : pystr) : pystr :=
  match s with
  | [] => []
  | c :: r =>
      match rstrip r with
      | [] => if isspace c then [] else [c]
      | r' => c :: r'
      end
  end.

(** [s.strip()] *)
Definition strip (s : pystr) : pystr := rstrip (lstrip s).

(** [s.startswith(p)], returning what follows [p]. *)
Fixpoint after_prefix (p s : pystr) : option pystr :=
  match p, s with
  | [], _ => Some s
  | _ :: _, [] => None
  | a :: p', b :: s' => if a =? b then after_prefix p' s' else None
  end.

(** [s.endswith(p)], returning what precedes [p]. *)
Definition before_suffix (p s : pystr) : option pystr :=
  option_map (@rev N) (after_prefix (rev p) (rev s)).

(** [p in s] for two strings: [p] occurs in [s] as a contiguous run. *)
Fixpoint occurs_in (p s : pystr) : bool :=
  match after_prefix p s with
  | Some _ => true
  | None => match s with [] => false | _ :: r => occurs_in p r end
  end.

(** The part of [s] from the first occurrence of the character [c] on. *)
Fixpoint from_first (c : N) (s : pystr) : pystr :=
  match s with
  | [] => []
  | x :: r => if x =? c then s else from_first c r
  end.

(** The part of [s] up to the last occurrence of the character [c]. *)
Definition upto_last (c : N) (s : pystr) : pystr :=
  rev (from_first c (rev s)).

(** [str(n)] for a non-negative [int]. *)
Definition str_of_nat (n : nat) : pystr :=
  py (NilZero.string_of_uint (Nat.to_uint n)).

End PyStr.
Export PyStr.

(** ** The part of [re] the backend uses *)

Module Re.

(** A class of characters: one character, [\s], or [.] under [re.DOTALL]. *)
Inductive cls : Set :=
| Literal (c : N)
| Whitespace
| AnyChar.

Definition in_cls (k : cls) (c : N) : bool :=
  match k with
  | Literal a => (a =? c)%N
  | Whitespace => isspace c
  | AnyChar => true
  end.

(** The items a pattern is a sequence of: [^], [$], one character of a
    class, and the greedy [k*]. *)
Inductive item : Set :=
| Bol
| Eol
| One (k : cls)
| Star (k : cls).

Definition pattern : Set := list item.

(** The characters of a literal, one item each. *)
Definition lit (s : string) : pattern :=
  map (fun c => One (Literal c)) (py s).

(** Without [re.MULTILINE], [$] holds at the end of the string and before a
    newline that ends it. *)
Definition at_end (s : pystr) : bool :=
  match s with
  | [] => true
  | [c] => (c =? newline)%N
  | _ => false
  end.

(** The greedy star of the backtracking matcher: take characters of the
    class while there are any, then go on with [rest_of_pattern]; when that
    fails, give the last character back and try again. *)
Fixpoint star (k : cls) (rest_of_pattern : bool -> pystr -> option pystr)
    (at_start : bool) (s : pystr) : option pystr :=
  match s with
  | c :: s' =>
      if in_cls k c then
        match star k rest_of_pattern false s' with
        | Some rest => Some rest
        | None => rest_of_pattern at_start s
        end
      else rest_of_pattern at_start s
  | [] => rest_of_pattern at_start s
  end.

(** The backtracking matcher: [match_here p at_start s] matches [p] at the
    head of [s], where [at_start] tells whether that is offset 0 (where
    alone [^] holds without [re.MULTILINE]), and returns what follows the
    match. *)
Fixpoint match_here (p : pattern) (at_start : bool) (s : pystr) {struct p}
  : option pystr :=
  match p with
  | [] => Some s
  | Bol :: p' => if at_start then match_here p' at_start s else None
  | Eol :: p' => if at_end s then match_here p' at_start s else None
  | One k :: p' =>
      match s with
      | c :: s' => if in_cls k c then match_here p' false s' else None
      | [] => None
      end
  | Star k :: p' => star k (match_here p') at_start s
  end.

(** The text of the leftmost match at or after the head of [s]. *)
Fixpoint search_from (p : pattern) (at_start : bool) (s : pystr)
  : option pystr :=
  match match_here p at_start s with
  | Some rest => Some (take (length s - length rest) s)
  | None =>
      match s with
      | [] => None
      | _ :: s' => search_from p false s'
      end
  end.

(** [re.search(p, s)], followed by [match.group()]. *)
Definition search (p : pattern) (s : pystr) : option pystr :=
  search_from p true s.

(** [s] without the matches of [p], found from left to right without
    overlap; [skip] characters of a match are still to be passed over. *)
Fixpoint sub_from (p : pattern) (at_start : bool) (skip : nat) (s : pystr)
  : pystr :=
  match skip, s with
  | S k, _ :: s' => sub_from p false k s'
  | S _, [] => []
  | O, [] => []
  | O, c :: s' =>
      match match_here p at_start s with
      | Some rest =>
          match length s - length rest with
          | S k => sub_from p false k s'
          | O => c :: sub_from p false 0 s'
          end
      | None => c :: sub_from p false 0 s'
      end
  end.

(** [re.sub(p, '', s)]. *)
Definition sub (p : pattern) (s : pystr) : pystr := sub_from p true 0 s.

End Re.

(** ** Cleaning the model's reply (lines 90-93 and 99 of [generate_quiz]) *)

Module Clean.

(** [r'^```json\s*'] *)
Definition open_fence : Re.pattern :=
  Re.Bol :: Re.lit "```json" ++ [Re.Star Re.Whitespace].

(** [r'\s*```$'] *)
Definition close_fence : Re.pattern :=
  Re.Star Re.Whitespace :: Re.lit "```" ++ [Re.Eol].

(** [r'\{.*\}'], used with [re.DOTALL] *)
Definition brace_span : Re.pattern :=
  Re.lit "{" ++ [Re.Star Re.AnyChar] ++ Re.lit "}".

(** Lines 91-93: both substitutions, then [result.strip()]. *)
Definition clean (result : pystr) : pystr :=
  let result := Re.sub open_fence result in
  let result := Re.sub close_fence result in
  strip result.

(** What the three patterns come to, without the matcher
    ([ReFacts.sub_open_fence_agrees], [ReFacts.sub_close_fence_agrees],
    [ReFacts.search_brace_span_agrees]).

    The opening fence is found at offset 0 only: the marker and the whole
    run of whitespace after it go. *)
Definition sub_open_fence (s : pystr) : pystr :=
  match after_prefix (py "```json") s with
  | Some rest => lstrip rest
  | None => s
  end.

(** The closing fence is three backticks at the end of the string or before
    its final newline: they go together with the whitespace in front of
    them, and the final newline stays. *)
Definition sub_close_fence (s : pystr) : pystr :=
  match before_suffix (py "```") s with
  | Some front => rstrip front
  | None =>
      match before_suffix (py "```" ++ [newline]) s with
      | Some front => rstrip front ++ [newline]
      | None => s
      end
  end.

(** The brace span runs from the first opening brace to the last closing
    brace after it. *)
Definition search_braces (s : pystr) : option pystr :=
  match from_first lbrace s with
  | [] => None
  | from_open =>
      match upto_last rbrace from_open with
      | [] => None
      | span => Some span
      end
  end.

(** What follows the last occurrence of [c] in [s]. *)
Fixpoint after_last (c : N) (s : pystr) : option pystr :=
  match s with
  | [] => None
  | x :: r =>
      match after_last c r with
      | Some t => Some t
      | None => if (c =? x)%N then Some r else None
      end
  end.

(** What follows a closing fence found at the head of [s], after
    whitespace. *)
Definition fence_at_head (s : pystr) : option pystr :=
  match after_prefix (py "```") (lstrip s) with
  | Some r => if Re.at_end r then Some r else None
  | None => None
  end.

End Clean.

(** ** Values decoded from JSON, and the exceptions of the backend *)

Module Json.

(** What [json.loads] and [response.json()] build: [None], [bool], [int],
    [float], [str], [list] and [dict] (keys are strings; items are kept in
    insertion order). *)
Inductive JSON : Type :=
| JNull
| JBool (b : bool)
| JInt (z : Z)
| JFloat (f : float)
| JStr (s : pystr)
| JArr (l : list JSON)
| JObj (d : list (pystr * JSON)).

Inductive pytype : Set :=
| NoneType | PyBool | PyInt | PyFloat | PyStr | PyList | PyDict.

Definition type_of (v : JSON) : pytype :=
  match v with
  | JNull => NoneType
  | JBool _ => PyBool
  | JInt _ => PyInt
  | JFloat _ => PyFloat
  | JStr _ => PyStr
  | JArr _ => PyList
  | JObj _ => PyDict
  end.

(** The built-in exceptions the dynamically typed steps of [generate_quiz]
    can raise, by cause. *)
Inductive builtin_error : Type :=
| AttributeError (t : pytype) (attr : pystr)   (* no such method on [t] *)
| KeyError (key : JSON)                        (* key missing from a dict *)
| IndexError (t : pytype)                      (* index out of range *)
| NotSubscriptable (t : pytype)                (* TypeError: [v[...]] *)
| BadIndex (t idx : pytype)                    (* TypeError: str or list indexed by [idx] *)
| NotIterable (t : pytype)                     (* TypeError: [for ... in v], [... in v] *)
| NoLen (t : pytype)                           (* TypeError: [len(v)] *)
| NoItemAssignment (t : pytype)                (* TypeError: [v[...] = ...] *)
| ExpectedString (t : pytype)                  (* TypeError: [re.sub] on a non-string *)
| RecursionError                               (* nesting too deep for the decoder *)
| ZeroDivisionError                            (* division by zero *)
| ValueError.                                  (* [max()] of an empty sequence *)

(** What [json.loads] does with a text: it returns the decoded value, it
    raises [JSONDecodeError] because the text is not JSON, or it raises
    something else (on nesting beyond the recursion limit). *)
Inductive decoding : Type :=
| Decoded (v : JSON)
| JSONDecodeError
| DecoderFailure (e : builtin_error).

(** The three classes the handlers of lines 124-129 tell apart, in the order
    they are tried; [Timeout] and [RequestException] carry [str(e)]. *)
Inductive exception : Type :=
| Timeout (msg : pystr)
| RequestException (msg : pystr)
| Builtin (e : builtin_error).

Inductive result (A : Type) : Type :=
| Ok (a : A)
| Raise (e : exception).
Arguments Ok {A} a.
Arguments Raise {A} e.

#[global] Instance result_ret : MRet result := @Ok.
#[global] Instance result_bind : MBind result :=
  fun A B (f : A -> result B) (m : result A) =>
    match m with
    | Ok a => f a
    | Raise e => Raise e
    end.

(** Truth value of a decoded value ([if not v]). *)
Definition truthy (v : JSON) : bool :=
  match v with
  | JNull => false
  | JBool b => b
  | JInt z => negb (z =? 0)%Z
  | JFloat f => negb (f =? 0)%float
  | JStr s => negb (bool_decide (s = []))
  | JArr l => match l with [] => false | _ => true end
  | JObj d => match d with [] => false | _ => true end
  end.

(** Dict look-up and store on the item list. *)
Fixpoint dict_get (k : pystr) (d : list (pystr * JSON)) : option JSON :=
  match d with
  | [] => None
  | (k', v) :: r => if bool_decide (k' = k) then Some v else dict_get k r
  end.

Fixpoint dict_set (k : pystr) (v : JSON) (d : list (pystr * JSON))
  : list (pystr * JSON) :=
  match d with
  | [] => [(k, v)]
  | (k', v') :: r =>
      if bool_decide (k' = k) then (k', v) :: r else (k', v') :: dict_set k v r
  end.

(** [v.get(k, dflt)] *)
Definition get_default (v : JSON) (k : pystr) (dflt : JSON) : result JSON :=
  match v with
  | JObj d => Ok (default dflt (dict_get k d))
  | _ => Raise (Builtin (AttributeError (type_of v) (py "get")))
  end.

(** [v[k]] for a string key [k] *)
Definition subscript_key (v : JSON) (k : pystr) : result JSON :=
  match v with
  | JObj d =>
      match dict_get k d with
      | Some x => Ok x
      | None => Raise (Builtin (KeyError (JStr k)))
      end
  | JArr _ | JStr _ => Raise (Builtin (BadIndex (type_of v) PyStr))
  | _ => Raise (Builtin (NotSubscriptable (type_of v)))
  end.

(** [v[i]] for a non-negative integer [i] *)
Definition subscript_int (v : JSON) (i : nat) : result JSON :=
  match v with
  | JArr l =>
      match l !! i with
      | Some x => Ok x
      | None => Raise (Builtin (IndexError PyList))
      end
  | JStr s =>
      match s !! i with
      | Some c => Ok (JStr [c])
      | None => Raise (Builtin (IndexError PyStr))
      end
  | JObj _ => Raise (Builtin (KeyError (JInt (Z.of_nat i))))
  | _ => Raise (Builtin (NotSubscriptable (type_of v)))
  end.

(** [v[k] = x] for a string key [k] *)
Definition store_key (v : JSON) (k : pystr) (x : JSON) : result JSON :=
  match v with
  | JObj d => Ok (JObj (dict_set k x d))
  | JArr _ => Raise (Builtin (BadIndex PyList PyStr))
  | _ => Raise (Builtin (NoItemAssignment (type_of v)))
  end.

(** [k in v] for a string [k]: a key of a dict, an element of a list, a
    substring of a string. *)
Definition contains (k : pystr) (v : JSON) : result bool :=
  match v with
  | JObj d => Ok (bool_decide (is_Some (dict_get k d)))
  | JArr l =>
      Ok (existsb (fun x => match x with
                            | JStr s => bool_decide (s = k)
                            | _ => false
                            end) l)
  | JStr s => Ok (occurs_in k s)
  | _ => Raise (Builtin (NotIterable (type_of v)))
  end.

(** The elements [for q in v] visits: the elements of a list, the keys of a
    dict, the characters of a string. *)
Definition iterate (v : JSON) : result (list JSON) :=
  match v with
  | JArr l => Ok l
  | JObj d => Ok (map (fun kv => JStr (fst kv)) d)
  | JStr s => Ok (map (fun c => JStr [c]) s)
  | _ => Raise (Builtin (NotIterable (type_of v)))
  end.

(** The subject of [re.sub] must be a string. *)
Definition as_text (v : JSON) : result pystr :=
  match v with
  | JStr s => Ok s
  | _ => Raise (Builtin (ExpectedString (type_of v)))
  end.

End Json.
Export Json.

(** ** [random.shuffle] *)

Module Shuffle.

Section Draws.
(** [draws k] is the raw value behind the [k]-th call of [randbelow]. *)
Variable draws : nat -> nat.

(** [randbelow(n)] at the [k]-th call: a number below [n]. *)
Definition randbelow (k n : nat) : nat := draws k `mod` n.

(** [x[i], x[j] = x[j], x[i]] *)
Definition swap {A : Type} (x : list A) (i j : nat) : list A :=
  match x !! i, x !! j with
  | Some a, Some b => <[j := a]> (<[i := b]> x)
  | _, _ => x
  end.

(** The loop of [random.shuffle]:
    [for i in reversed(range(1, len(x))): j = randbelow(i + 1); swap],
    entered at index [i], with [k] draws made so far. *)
Fixpoint shuffle_from {A : Type} (i : nat) (x : list A) (k : nat)
  : list A * nat :=
  match i with
  | O => (x, k)
  | S i' => shuffle_from i' (swap x i (randbelow k (S i))) (S k)
  end.

Definition shuffle {A : Type} (x : list A) (k : nat) : list A * nat :=
  shuffle_from (length x - 1) x k.

(** [random.shuffle(v)] on a decoded value. A list is permuted in place.
    A string or dict of at most one element is left alone (the loop body
    never runs); a longer string refuses the assignment, a longer dict has
    no integer key [j]; the other types have no length. *)
Definition random_shuffle (v : JSON) (k : nat) : result (JSON * nat) :=
  match v with
  | JArr l => let '(l', k') := shuffle l k in Ok (JArr l', k')
  | JStr s =>
      if bool_decide (length s ≤ 1) then Ok (v, k)
      else Raise (Builtin (NoItemAssignment PyStr))
  | JObj d =>
      if bool_decide (length d ≤ 1) then Ok (v, k)
      else Raise (Builtin (KeyError (JInt (Z.of_nat (randbelow k (length d))))))
  | _ => Raise (Builtin (NoLen (type_of v)))
  end.
End Draws.

End Shuffle.
Export Shuffle.

(** ** The backend: [generate_quiz] (lines 31-129) *)

Module Backend.

(** What [requests.post] is called with. *)
Record Request : Type := {
  req_url : pystr;
  req_authorization : pystr;
  req_content_type : pystr;
  req_model : pystr;
  req_content : pystr;        (* the one user message: the prompt *)
  req_temperature : float;
  req_max_tokens : Z;
  req_timeout : Z
}.

(** What it returns: the status code and what [response.json()] gives. *)
Record Response : Type := {
  status_code : nat;
  json : result JSON
}.

(** The world around one call of [generate_quiz]. *)
Record Env : Type := {
  API_KEY : pystr;                         (* the configured secret *)
  post : Request -> result Response;       (* [requests.post] *)
  json_loads : pystr -> decoding;          (* [json.loads] *)
  draws : nat -> nat;                      (* the random source *)
  describe : builtin_error -> pystr        (* [str(e)] of a built-in exception *)
}.

(** The pair [generate_quiz] returns: [(quiz, error)]. *)
Definition answer : Type := option JSON * option pystr.

(** How an iteration of the shuffle loop ends: it goes on, or the function
    returns from inside the loop. *)
Inductive flow (A : Type) : Type :=
| Next (a : A)
| Return (r : answer).
Arguments Next {A} a.
Arguments Return {A} r.

Definition URL : pystr := py "https://api.openai.com/v1/chat/completions".

(** The f-string of lines 44-68. *)
Definition prompt (text : pystr) (num_questions : nat) : pystr :=
  pyq "
    Generate exactly " ++ str_of_nat num_questions ++
  pyq " multiple-choice questions from the text below.
    Return ONLY valid JSON in this exact format (no markdown, no extra text):

    {
      'quiz': [
        {
          'question': 'Question text here',
          'options': ['a) First option', 'b) Second option', 'c) Third option', 'd) Fourth option'],
          'answer': 'b) Second option',
          'explanation': 'Brief explanation of why this is correct'
        }
      ]
    }

    Rules:
    - Create clear, unambiguous questions
    - Ensure only one correct answer per question
    - Include brief explanations for correct answers
    - Base all questions strictly on the provided text
    - Make distractors plausible but incorrect

    Text:
    " ++ text ++ pyq "
    ".

Definition msg_no_text : pystr :=
  py "Please provide text to generate questions from.".
Definition msg_no_key : pystr := py "API key is required.".
Definition msg_invalid_key : pystr :=
  py "Invalid API key. Please check your OpenAI API key.".
Definition msg_rate_limit : pystr :=
  py "Rate limit exceeded. Please try again in a moment.".
Definition msg_parse : pystr := py "Failed to parse quiz response.".
Definition msg_no_questions : pystr :=
  py "No questions were generated. Try with more text.".
Definition msg_format : pystr := py "Invalid question format received.".
Definition msg_timeout : pystr := py "Request timed out. Please try again.".

Section WithEnv.
Context (env : Env).

(** Lines 95-106: the direct decode and, after a [JSONDecodeError], the
    decode of the brace span under a bare [except]. [Ok None] stands for
    the two [return None, "Failed to parse quiz response."]. *)
Definition parse (text : pystr) : result (option JSON) :=
  match json_loads env text with
  | Decoded quiz_data => Ok (Some quiz_data)
  | DecoderFailure e => Raise (Builtin e)
  | JSONDecodeError =>
      match Re.search Clean.brace_span text with
      | Some span =>
          match json_loads env span with
          | Decoded quiz_data => Ok (Some quiz_data)
          | _ => Ok None
          end
      | None => Ok None
      end
  end.

(** Line 115: ["options" in q and "answer" in q and "question" in q] *)
Definition has_keys (q : JSON) : result bool :=
  a ← contains (py "options") q;
  if a : bool then
    b ← contains (py "answer") q;
    if b : bool then contains (py "question") q else Ok false
  else Ok false.

(** Lines 114-120: the loop over the questions, with [k] draws made so far.
    The loop changes [q] and its option list in place; the list of the
    changed questions is what the caller's [quiz_questions] then holds. *)
Fixpoint shuffle_options (qs : list JSON) (k : nat)
  : result (flow (list JSON)) :=
  match qs with
  | [] => Ok (Next [])
  | q :: rest =>
      ok ← has_keys q;
      if ok : bool then
        correct ← subscript_key q (py "answer");
        options ← subscript_key q (py "options");
        '(shuffled, k') ← random_shuffle (draws env) options k;
        q1 ← store_key q (py "options") shuffled;
        q2 ← store_key q1 (py "answer") correct;
        r ← shuffle_options rest k';
        match r with
        | Next rest' => Ok (Next (q2 :: rest'))
        | Return a => Ok (Return a)
        end
      else Ok (Return (None, Some msg_format))
  end.

(** Lines 90-122: from the text of the reply to the returned pair. *)
Definition respond (content : pystr) : result answer :=
  parsed ← parse (Clean.clean content);
  match parsed with
  | None => Ok (None, Some msg_parse)
  | Some quiz_data =>
      quiz_questions ← get_default quiz_data (py "quiz") (JArr []);
      if negb (truthy quiz_questions) then Ok (None, Some msg_no_questions)
      else
        items ← iterate quiz_questions;
        r ← shuffle_options items 0;
        match r with
        | Return a => Ok a
        | Next items' =>
            Ok (Some match quiz_questions with
                     | JArr _ => JArr items'
                     | other => other
                     end, None)
        end
  end.

(** Line 88: [response.json()["choices"][0]["message"]["content"]], and
    on from there. *)
Definition read_reply (body : JSON) : result answer :=
  choices ← subscript_key body (py "choices");
  choice ← subscript_int choices 0;
  message ← subscript_key choice (py "message");
  content ← subscript_key message (py "content");
  text ← as_text content;
  respond text.

(** Lines 78-122: the body of the [try]. *)
Definition attempt (req : Request) : result answer :=
  response ← post env req;
  if bool_decide (status_code response ≠ 200) then
    if bool_decide (status_code response = 401) then
      Ok (None, Some msg_invalid_key)
    else if bool_decide (status_code response = 429) then
      Ok (None, Some msg_rate_limit)
    else
      Ok (None, Some (py "API Error " ++ str_of_nat (status_code response)))
  else
    body ← json response;
    read_reply body.

(** Lines 124-129: the three [except] clauses. *)
Definition handle (r : result answer) : answer :=
  match r with
  | Ok a => a
  | Raise (Timeout _) => (None, Some msg_timeout)
  | Raise (RequestException e) => (None, Some (py "Network error: " ++ e))
  | Raise (Builtin e) =>
      (None, Some (py "Unexpected error: " ++ describe env e))
  end.

(** Lines 39-42 and 70-75. *)
Definition request_for (text : pystr) (num_questions : nat) : Request :=
  {| req_url := URL;
     req_authorization := py "Bearer " ++ API_KEY env;
     req_content_type := py "application/json";
     req_model := py "gpt-4o-mini";
     req_content := prompt text num_questions;
     req_temperature := 0.5%float;
     req_max_tokens := 2000;
     req_timeout := 30 |}.

(** [generate_quiz(text, num_questions)]: the returned pair, and the
    requests sent on the way. *)
Definition generate_quiz (text : pystr) (num_questions : nat)
  : answer * list Request :=
  if negb (truthy (JStr text)) || negb (truthy (JStr (strip text))) then
    ((None, Some msg_no_text), [])
  else if negb (truthy (JStr (API_KEY env))) then
    ((None, Some msg_no_key), [])
  else
    let req := request_for text num_questions in
    (handle (attempt req), [req]).
End WithEnv.

End Backend.
Export Backend.

(** ** Session state (lines 134-150) and the history ledger (lines 614-620) *)

Module Session.

Inductive Page : Set := PageMain | PageQuiz | PageHistory.

#[global] Instance Page_eq_dec : EqDecision Page.
Proof. solve_decision. Defined.

(** One entry of [quiz_history]; [date] is the text
    [strftime("%Y-%m-%d %H:%M")] produced. *)
Record HistoryRecord : Type := {
  date : pystr;
  score : float;
  correct : nat;
  total : nat
}.

(** [st.session_state]. An entry of [user_answers] holds the selected
    option, or [None] while the radio has no selection. *)
Record SessionState : Type := {
  page : Page;
  paragraphs : list pystr;
  quiz : list JSON;
  user_answers : gmap nat (option pystr);
  quiz_ready : bool;
  show_results : bool;
  quiz_history : list HistoryRecord;
  current_paragraph : pystr;
  dark_mode : bool;
  num_questions : nat
}.

Definition init_session_state : SessionState :=
  {| page := PageMain; paragraphs := []; quiz := []; user_answers := ∅;
     quiz_ready := false; show_results := false; quiz_history := [];
     current_paragraph := []; dark_mode := true; num_questions := 5 |}.

(** Assignments to single fields. *)
Definition set_page (v : Page) (s : SessionState) : SessionState :=
  {| page := v; paragraphs := paragraphs s; quiz := quiz s;
     user_answers := user_answers s; quiz_ready := quiz_ready s;
     show_results := show_results s; quiz_history := quiz_history s;
     current_paragraph := current_paragraph s; dark_mode := dark_mode s;
     num_questions := num_questions s |}.
Definition set_paragraphs (v : list pystr) (s : SessionState) : SessionState :=
  {| page := page s; paragraphs := v; quiz := quiz s;
     user_answers := user_answers s; quiz_ready := quiz_ready s;
     show_results := show_results s; quiz_history := quiz_history s;
     current_paragraph := current_paragraph s; dark_mode := dark_mode s;
     num_questions := num_questions s |}.
Definition set_quiz (v : list JSON) (s : SessionState) : SessionState :=
  {| page := page s; paragraphs := paragraphs s; quiz := v;
     user_answers := user_answers s; quiz_ready := quiz_ready s;
     show_results := show_results s; quiz_history := quiz_history s;
     current_paragraph := current_paragraph s; dark_mode := dark_mode s;
     num_questions := num_questions s |}.
Definition set_user_answers (v : gmap nat (option pystr)) (s : SessionState)
  : SessionState :=
  {| page := page s; paragraphs := paragraphs s; quiz := quiz s;
     user_answers := v; quiz_ready := quiz_ready s;
     show_results := show_results s; quiz_history := quiz_history s;
     current_paragraph := current_paragraph s; dark_mode := dark_mode s;
     num_questions := num_questions s |}.
Definition set_quiz_ready (v : bool) (s : SessionState) : SessionState :=
  {| page := page s; paragraphs := paragraphs s; quiz := quiz s;
     user_answers := user_answers s; quiz_ready := v;
     show_results := show_results s; quiz_history := quiz_history s;
     current_paragraph := current_paragraph s; dark_mode := dark_mode s;
     num_questions := num_questions s |}.
Definition set_show_results (v : bool) (s : SessionState) : SessionState :=
  {| page := page s; paragraphs := paragraphs s; quiz := quiz s;
     user_answers := user_answers s; quiz_ready := quiz_ready s;
     show_results := v; quiz_history := quiz_history s;
     current_paragraph := current_paragraph s; dark_mode := dark_mode s;
     num_questions := num_questions s |}.
Definition set_quiz_history (v : list HistoryRecord) (s : SessionState)
  : SessionState :=
  {| page := page s; paragraphs := paragraphs s; quiz := quiz s;
     user_answers := user_answers s; quiz_ready := quiz_ready s;
     show_results := show_results s; quiz_history := v;
     current_paragraph := current_paragraph s; dark_mode := dark_mode s;
     num_questions := num_questions s |}.
Definition set_dark_mode (v : bool) (s : SessionState) : SessionState :=
  {| page := page s; paragraphs := paragraphs s; quiz := quiz s;
     user_answers := user_answers s; quiz_ready := quiz_ready s;
     show_results := show_results s; quiz_history := quiz_history s;
     current_paragraph := current_paragraph s; dark_mode := v;
     num_questions := num_questions s |}.
Definition set_num_questions (v : nat) (s : SessionState) : SessionState :=
  {| page := page s; paragraphs := paragraphs s; quiz := quiz s;
     user_answers := user_answers s; quiz_ready := quiz_ready s;
     show_results := show_results s; quiz_history := quiz_history s;
     current_paragraph := current_paragraph s; dark_mode := dark_mode s;
     num_questions := v |}.

(** *** The ledger *)

Section Clock.
(** [now k]: the text [datetime.now().strftime("%Y-%m-%d %H:%M")] gives at
    the [k]-th reading of the clock. *)
Variable now : nat -> pystr.

(** Line 614: [any(h.get("date") == datetime.now().strftime(...) for h in
    quiz_history)], started with [t] readings made so far. The clock is
    read once per record looked at, and [any] stops at the first hit. *)
Fixpoint any_same_minute (t : nat) (h : list HistoryRecord) : bool * nat :=
  match h with
  | [] => (false, t)
  | r :: rest =>
      if bool_decide (date r = now t) then (true, S t)
      else any_same_minute (S t) rest
  end.

(** Lines 614-620: append unless a record of the same minute exists. The
    appended record takes its date from one more reading. *)
Definition record (t : nat) (percentage : float) (score total : nat)
    (h : list HistoryRecord) : list HistoryRecord * nat :=
  let '(seen, t1) := any_same_minute t h in
  if seen then (h, t1)
  else (h ++ [{| date := now t1; score := percentage;
                 correct := score; total := total |}], S t1).
End Clock.

(** Line 691: [quiz_history = []]. *)
Definition clear (h : list HistoryRecord) : list HistoryRecord := [].

End Session.
Export Session.

(** ** The results view (lines 562-620) *)

Module Grading.

(** [user_answers.get(i)] *)
Definition get (user_answers : gmap nat (option pystr)) (i : nat)
  : option pystr :=
  default None (user_answers !! i).

(** [user_ans == correct_ans], for a selection ([None] or a string) against a
    decoded value. *)
Definition py_eq (user_ans : option pystr) (correct_ans : JSON) : bool :=
  match user_ans, correct_ans with
  | Some u, JStr c => bool_decide (u = c)
  | None, JNull => true
  | _, _ => false
  end.

(** Lines 565-589: [for i, q in enumerate(quiz)], entered at index [i] with
    [score] points so far. [q["answer"]] and [q["question"]] are read of
    every question. *)
Fixpoint mark (i : nat) (quiz : list JSON)
    (user_answers : gmap nat (option pystr)) (score : nat) : result nat :=
  match quiz with
  | [] => Ok score
  | q :: rest =>
      let user_ans := get user_answers i in
      correct_ans ← subscript_key q (py "answer");
      let score := if py_eq user_ans correct_ans then S score else score in
      _ ← subscript_key q (py "question");
      mark (S i) rest user_answers score
  end.

(** [float(n)] of a non-negative [int]; exact below 2^53. *)
Definition float_of_nat (n : nat) : float :=
  PrimFloat.of_uint63 (Uint63.of_Z (Z.of_nat n)).

(** Line 592: [(score / total) * 100]. Dividing by the [int] zero raises
    [ZeroDivisionError]. Otherwise [/] gives the binary64 number nearest to
    the quotient of the two [int]s, which for operands below 2^53 (the
    number of questions of a quiz is far below) is the binary64 quotient of
    their conversions; the product with 100 is rounded once more. *)
Definition percentage_of (score total : nat) : result float :=
  match total with
  | O => Raise (Builtin ZeroDivisionError)
  | S _ => Ok (float_of_nat score / float_of_nat total * 100)%float
  end.

(** Lines 594-602: the [float] is compared with the [int]s 80 and 60. *)
Definition message_of (percentage : float) : pystr :=
  if (80 <=? percentage)%float then py "Excellent work!"
  else if (60 <=? percentage)%float then py "Good job!"
  else py "Keep studying!".

Record ScoreCard : Type := {
  card_message : pystr;
  card_score : nat;
  card_total : nat;
  card_percentage : float
}.

(** Lines 562-611. On an empty quiz the loop does nothing and line 592
    divides by zero; the page draws the view for a non-empty quiz only
    (line 499). *)
Definition grade (quiz : list JSON) (user_answers : gmap nat (option pystr))
  : result ScoreCard :=
  let total := length quiz in
  score ← mark 0 quiz user_answers 0;
  percentage ← percentage_of score total;
  Ok {| card_message := message_of percentage; card_score := score;
        card_total := total; card_percentage := percentage |}.

(** Lines 562-620: the card, and the ledger after the append of line 614. *)
Definition results_view (now : nat -> pystr) (t : nat) (s : SessionState)
  : result (ScoreCard * SessionState * nat) :=
  card ← grade (quiz s) (user_answers s);
  let '(h, t') := record now t (card_percentage card) (card_score card)
                    (card_total card) (quiz_history s) in
  Ok (card, set_quiz_history h s, t').

End Grading.
Export Grading.

(** ** The pages and their buttons (lines 381-694) *)

Module App.

(** The buttons, by their widget keys. [add_para] comes with the content of
    the text area, [gen_quiz i] is the button of paragraph [i]. *)
Inductive Button : Type :=
| theme_btn
| nav_home
| nav_quiz
| nav_history
| add_para (user_input : pystr)
| clear_all
| gen_quiz (i : nat)
| quiz_home_btn
| submit_btn
| reset_btn
| quiz_home_sidebar
| try_again
| results_home
| history_home
| clear_history.

Definition nonempty {A : Type} (l : list A) : bool :=
  match l with [] => false | _ => true end.

Definition on_page (p : Page) (s : SessionState) : bool :=
  bool_decide (page s = p).

(** Line 511: the number of keys of [user_answers] whose value is not
    [None]. *)
Definition answered (s : SessionState) : nat :=
  size (filter (fun kv : nat * option pystr => is_Some kv.2) (user_answers s)).

(** Whether the script draws the button in state [s]. *)
Definition rendered (s : SessionState) (b : Button) : bool :=
  match b with
  | theme_btn | nav_home => true
  | nav_quiz => quiz_ready s
  | nav_history => nonempty (quiz_history s)
  | add_para _ => on_page PageMain s
  | clear_all => on_page PageMain s && nonempty (paragraphs s)
  | gen_quiz i => on_page PageMain s && bool_decide (i < length (paragraphs s))
  | quiz_home_btn => on_page PageQuiz s && negb (nonempty (quiz s))
  | submit_btn | reset_btn | quiz_home_sidebar =>
      on_page PageQuiz s && nonempty (quiz s)
  | try_again | results_home =>
      on_page PageQuiz s && nonempty (quiz s) && show_results s
  | history_home => on_page PageHistory s && negb (nonempty (quiz_history s))
  | clear_history => on_page PageHistory s && nonempty (quiz_history s)
  end.

(** Line 521: [disabled=(answered < len(quiz))]. *)
Definition disabled (s : SessionState) (b : Button) : bool :=
  match b with
  | submit_btn => bool_decide (answered s < length (quiz s))
  | _ => false
  end.

(** The list a stored quiz is read as; [generate_quiz] returns a list
    whenever it returns a quiz. *)
Definition as_list (v : JSON) : list JSON :=
  match v with
  | JArr l => l
  | _ => []
  end.

Section WithEnv.
Context (env : Env).

(** Lines 476-491: the body under a [gen_quiz] button. *)
Definition on_gen_quiz (para : pystr) (s : SessionState)
  : SessionState * list Request :=
  let '((quiz, error), sent) := generate_quiz env para (num_questions s) in
  if from_option (fun e => truthy (JStr e)) false error then (s, sent)
  else if from_option truthy false quiz then
    (set_page PageQuiz
       (set_show_results false
          (set_user_answers ∅
             (set_quiz_ready true
                (set_quiz (from_option as_list [] quiz) s)))), sent)
  else (s, sent).

(** The body under each button: the new state and the requests sent. *)
Definition on_click (s : SessionState) (b : Button)
  : SessionState * list Request :=
  match b with
  | theme_btn => (set_dark_mode (negb (dark_mode s)) s, [])
  | nav_home => (set_show_results false (set_page PageMain s), [])
  | nav_quiz => (set_page PageQuiz s, [])
  | nav_history => (set_page PageHistory s, [])
  | add_para user_input =>
      if truthy (JStr user_input) && truthy (JStr (strip user_input)) then
        (set_paragraphs (paragraphs s ++ [strip user_input]) s, [])
      else (s, [])
  | clear_all =>
      (set_quiz_ready false (set_quiz [] (set_paragraphs [] s)), [])
  | gen_quiz i =>
      match paragraphs s !! i with
      | Some para => on_gen_quiz para s
      | None => (s, [])
      end
  | quiz_home_btn => (set_page PageMain s, [])
  | submit_btn => (set_show_results true s, [])
  | reset_btn => (set_show_results false (set_user_answers ∅ s), [])
  | quiz_home_sidebar => (set_show_results false (set_page PageMain s), [])
  | try_again => (set_show_results false (set_user_answers ∅ s), [])
  | results_home =>
      (set_show_results false (set_quiz_ready false (set_page PageMain s)),
       [])
  | history_home => (set_page PageMain s, [])
  | clear_history => (set_quiz_history (clear (quiz_history s)) s, [])
  end.

(** A click the browser has sent is handled by the next run of the script:
    the body under the button runs when that run gets to the button, that
    is when it draws it. Whether the browser lets the button be pressed was
    settled by the run that drew the page ([press]). *)
Definition click (s : SessionState) (b : Button)
  : SessionState * list Request :=
  if rendered s b then on_click s b else (s, []).

(** A press on the button [b] of a page that a run drew when it was in the
    state [drawn] at that button. The browser sends the click only if the
    button was drawn and not disabled; the run that handles it starts from
    the state [s] the drawing run left behind. *)
Definition press (drawn s : SessionState) (b : Button)
  : SessionState * list Request :=
  if rendered drawn b && negb (disabled drawn b) then click s b else (s, []).
End WithEnv.




(** The script run that handles a click on a button of the results view
    ([try_again] or [results_home]): the view above the buttons is drawn
    first (lines 559-620), then the body under the button runs. *)
Definition results_run (env : Env) (now : nat -> pystr) (t : nat)
    (b : Button) (s : SessionState) : result (SessionState * nat) :=
  '(_, s1, t1) ← results_view now t s;
  Ok ((on_click env s1 b).1, t1).

(** Line 555: [user_answers[i] = answer], the value of radio [i]. *)
Definition select (i : nat) (answer : option pystr) (s : SessionState)
  : SessionState :=
  set_user_answers (<[i := answer]> (user_answers s)) s.

(** Line 394: the slider. *)
Definition slide (num_q : nat) (s : SessionState) : SessionState :=
  set_num_questions num_q s.

End App.
Export App.

(** ** Vocabulary of the statements, and sample data *)

Module Spec.

(** A chat-completion body whose first choice carries [content]. *)
Definition reply_with (content : pystr) : JSON :=
  JObj [(py "choices",
         JArr [JObj [(py "message", JObj [(py "content", JStr content)])]])].

Definition whitespace (w : pystr) : Prop := Forall (fun c => isspace c = true) w.

(** [payload] between an opening [```json] fence and a closing [```] fence,
    with whitespace [w1] and [w2] (for instance newlines) inside the fences. *)
Definition fenced (w1 w2 payload : pystr) : pystr :=
  py "```json" ++ w1 ++ payload ++ w2 ++ py "```".

(** A question with the three keys, whose answer is [a] and whose options
    are the list [opts]. *)
Definition question_with (q : JSON) (a : JSON) (opts : list JSON) : Prop :=
  ∃ d, q = JObj d ∧
       is_Some (dict_get (py "question") d) ∧
       dict_get (py "answer") d = Some a ∧
       dict_get (py "options") d = Some (JArr opts).

(** A question object with the three keys. *)
Definition has_all_keys (q : JSON) : Prop :=
  ∃ d, q = JObj d ∧
       is_Some (dict_get (py "question") d) ∧
       is_Some (dict_get (py "options") d) ∧
       is_Some (dict_get (py "answer") d).

(** A question object that lacks one of the three keys. *)
Definition lacks_key (q : JSON) : Prop :=
  ∃ d, q = JObj d ∧
       (dict_get (py "question") d = None ∨
        dict_get (py "options") d = None ∨
        dict_get (py "answer") d = None).

(** What lines 116-118 make of a question with answer [a] and options
    [opts], after [k] draws. *)
Definition shuffled_question (env : Env) (q a : JSON) (opts : list JSON) (k : nat) : JSON :=
  match q with
  | JObj d =>
      JObj (dict_set (py "answer") a
              (dict_set (py "options")
                 (JArr (shuffle (draws env) opts k).1) d))
  | _ => q
  end.

(** Every reading of the clock from the [t]-th on falls in minute [m]. *)
Definition within_minute (now : nat -> pystr) (t : nat) (m : pystr) : Prop :=
  ∀ k, t ≤ k → now k = m.

(** A clock that never shows again a minute it has left. *)
Definition never_returns (now : nat -> pystr) : Prop :=
  ∀ i j k, i ≤ j → j ≤ k → now i = now k → now j = now i.

(** The ledgers a session can hold after [t] readings of the clock. *)
Inductive ledger_run (now : nat -> pystr) : list HistoryRecord → nat → Prop :=
| run_start : ledger_run now [] 0
| run_record h t percentage score total :
    ledger_run now h t →
    ledger_run now (record now t percentage score total h).1
                   (record now t percentage score total h).2
| run_clear h t : ledger_run now h t → ledger_run now (clear h) t.

(** No exception of [requests] arises in [r]. *)
Definition builtin_only {A : Type} (r : result A) : Prop :=
  match r with
  | Raise (Timeout _) | Raise (RequestException _) => False
  | _ => True
  end.

(** The two shapes of a returned pair: a non-empty list of questions with
    the three keys and no error, or no quiz and a non-empty message. *)
Definition quiz_or_error (a : answer) : Prop :=
  (∃ qs, a = (Some (JArr qs), None) ∧ qs ≠ [] ∧ Forall has_all_keys qs) ∨
  (∃ msg, a = (None, Some msg) ∧ msg ≠ []).


(** The fields neither home button of the quiz page is said to touch. *)
Definition same_content (s s' : SessionState) : Prop :=
  paragraphs s' = paragraphs s ∧ quiz_history s' = quiz_history s ∧
  user_answers s' = user_answers s ∧
  current_paragraph s' = current_paragraph s ∧
  dark_mode s' = dark_mode s ∧ num_questions s' = num_questions s.

(** A question with a question text, whose answer is the string [a]. *)
Definition answer_string (q : JSON) (a : pystr) : Prop :=
  subscript_key q (py "answer") = Ok (JStr a) ∧
  ∃ t, subscript_key q (py "question") = Ok t.

(** Whether the entry for question [i] is the answer string of question
    [i], given the answer strings of the quiz. *)
Definition correct_at (answers : list pystr) (ua : gmap nat (option pystr))
    (i : nat) : bool :=
  match answers !! i with
  | Some a => bool_decide (get ua i = Some a)
  | None => false
  end.

(** The number of questions answered with their answer string. *)
Definition correct_count (answers : list pystr) (ua : gmap nat (option pystr))
  : nat :=
  length (filter (fun i => correct_at answers ua i = true)
            (seq 0 (length answers))).

(** The band of [100 * score / total] without rounding: the two
    comparisons with 80 and 60, multiplied out in whole numbers. *)
Definition exact_band (score total : nat) : pystr :=
  if (80 * Z.of_nat total <=? 100 * Z.of_nat score)%Z then py "Excellent work!"
  else if (60 * Z.of_nat total <=? 100 * Z.of_nat score)%Z then py "Good job!"
  else py "Keep studying!".

(** The binary64 percentage [p] of [score] out of [total] compares with 80
    and 60 as the exact quotient does, is below a bound exactly when it
    does not reach it, and lies between 0 and 100. *)
Definition band_checks (score total : nat) (p : float) : bool :=
  Bool.eqb (80 <=? p)%float (80 * Z.of_nat total <=? 100 * Z.of_nat score)%Z
  && Bool.eqb (60 <=? p)%float (60 * Z.of_nat total <=? 100 * Z.of_nat score)%Z
  && Bool.eqb (p <? 80)%float (negb (80 <=? p)%float)
  && Bool.eqb (p <? 60)%float (negb (60 <=? p)%float)
  && (0 <=? p)%float && (p <=? 100)%float.

(** [band_checks] for every score out of every total from 1 to [n]. *)
Definition bands_agree_upto (n : nat) : bool :=
  forallb (fun total =>
     forallb (fun score =>
        match percentage_of score total with
        | Ok p => band_checks score total p
        | Raise _ => false
        end)
       (seq 0 (S total)))
    (seq 1 n).

(** A value that is no container: [None], a [bool] or a number. *)
Definition scalar (v : JSON) : Prop :=
  match v with
  | JNull | JBool _ | JInt _ | JFloat _ => True
  | _ => False
  end.

End Spec.
Export Spec.

Module Sample.
#[local] Open Scope string_scope.

Definition question (text answer : string) (options : list string) : JSON :=
  JObj [(py "question", JStr (py text));
        (py "options", JArr (map (fun o => JStr (py o)) options));
        (py "answer", JStr (py answer));
        (py "explanation", JStr (py "see the text"))].

Definition q1 : JSON := question "Q1" "b) X" ["a) W"; "b) X"; "c) V"; "d) U"].
Definition q2 : JSON := question "Q2" "a) Y" ["a) Y"; "b) Y"; "c) T"; "d) S"].

(** A reply of the requested shape, as text and as decoded. *)
Definition payload : pystr :=
  pyq "{'quiz': [{'question': 'Q1', 'options': ['a) W', 'b) X', 'c) V', 'd) U'], 'answer': 'b) X', 'explanation': 'see the text'}, {'question': 'Q2', 'options': ['a) Y', 'b) Y', 'c) T', 'd) S'], 'answer': 'a) Y', 'explanation': 'see the text'}]}".

Definition decoded : JSON := JObj [(py "quiz", JArr [q1; q2])].

(** A reply whose first question has a string where the option list should
    be, and whose second question has no answer. *)
Definition odd_payload : pystr :=
  pyq "{'quiz': [{'question': 'Q1', 'options': 'a) W, b) X', 'answer': 'b) X'}, {'question': 'Q2', 'options': ['a) Y', 'b) Y']}]}".

Definition odd_decoded : JSON :=
  JObj [(py "quiz",
         JArr [JObj [(py "question", JStr (py "Q1"));
                     (py "options", JStr (py "a) W, b) X"));
                     (py "answer", JStr (py "b) X"))];
               JObj [(py "question", JStr (py "Q2"));
                     (py "options", JArr [JStr (py "a) Y"); JStr (py "b) Y")])]])].

(** A reply whose second question has no answer. *)
Definition short_payload : pystr :=
  pyq "{'quiz': [{'question': 'Q1', 'options': ['a) W', 'b) X', 'c) V', 'd) U'], 'answer': 'b) X', 'explanation': 'see the text'}, {'question': 'Q2', 'options': ['a) Y', 'b) Y']}]}".

Definition short_decoded : JSON :=
  JObj [(py "quiz",
         JArr [q1;
               JObj [(py "question", JStr (py "Q2"));
                     (py "options", JArr [JStr (py "a) Y"); JStr (py "b) Y")])]])].

(** A decoder that knows these three texts. *)
Definition loads (text : pystr) : decoding :=
  from_option Decoded JSONDecodeError
    (dict_get text [(payload, decoded); (odd_payload, odd_decoded);
                    (short_payload, short_decoded)]).

(** A world in which the API answers with [content]. *)
Definition env_replying (content : pystr) : Env :=
  {| API_KEY := py "sk-sample";
     post := fun _ => Ok {| status_code := 200; json := Ok (reply_with content) |};
     json_loads := loads;
     draws := fun k => S k;
     describe := fun _ => py "error" |}.

Definition env : Env := env_replying (fenced [newline] [newline] payload).

(** A session in the results view of the sample quiz, with the second
    question answered wrongly and the result recorded. *)
Definition in_results : SessionState :=
  {| page := PageQuiz; paragraphs := [py "Some study text."];
     quiz := [q1; q2];
     user_answers := <[0%nat := Some (py "b) X")]> (<[1%nat := Some (py "b) Y")]> ∅);
     quiz_ready := true; show_results := true;
     quiz_history := [{| date := py "2025-03-01 10:15"; score := 50;
                         correct := 1; total := 2 |}];
     current_paragraph := []; dark_mode := true; num_questions := 2 |}.



(** A reply whose only quiz entry is a number. *)
Definition number_payload : pystr := pyq "{'quiz': [5]}".
Definition number_decoded : JSON := JObj [(py "quiz", JArr [JInt 5])].

(** A reply of a hundred thousand opening brackets, nested far deeper than
    the decoder's recursion limit. *)
Definition deep_payload : pystr := replicate (1000 * 100) 91%N.

(** A decoder that knows the first of these texts, and one that gives up
    on the second with a [RecursionError]. *)
Definition loads_number (text : pystr) : decoding :=
  if bool_decide (text = number_payload) then Decoded number_decoded
  else loads text.

Definition loads_deep (text : pystr) : decoding :=
  if bool_decide (text = deep_payload) then DecoderFailure RecursionError
  else loads text.

(** A world in which the API answers with [content] and the decoder is
    [decoder]. *)
Definition env_decoding (decoder : pystr -> decoding) (content : pystr) : Env :=
  {| API_KEY := py "sk-sample";
     post := fun _ => Ok {| status_code := 200; json := Ok (reply_with content) |};
     json_loads := decoder;
     draws := fun k => S k;
     describe := fun _ => py "error" |}.

End Sample.

(** ** What the pages show besides (lines 417-428 and 650-688) *)

Module Views.

(** Lines 418 and 665: the average score,
    [sum(h["score"] for h in quiz_history) / len(quiz_history)]. How the
    built-in [sum] rounds a sum of floats depends on the interpreter (plain
    left-to-right addition, or compensated summation from Python 3.12 on),
    so it is a parameter. On an empty ledger the sum is the [int] 0 and so
    is the length. *)
Definition average (sum : list float → float) (h : list HistoryRecord)
  : result float :=
  match h with
  | [] => Raise (Builtin ZeroDivisionError)
  | _ => Ok (sum (map score h) / float_of_nat (length h))%float
  end.

(** Line 674: [max(h["score"] for h in quiz_history)]; a later score
    replaces the running maximum when it is greater. *)
Definition best (h : list HistoryRecord) : result float :=
  match map score h with
  | [] => Raise (Builtin ValueError)
  | x :: r => Ok (foldl (fun m y => if (m <? y)%float then y else m) x r)
  end.

(** Lines 417-428: the statistics of the sidebar, computed for a non-empty
    ledger only: the number of quizzes and the average. *)
Definition sidebar_stats (sum : list float → float) (s : SessionState)
  : option (nat * result float) :=
  if nonempty (quiz_history s)
  then Some (length (quiz_history s), average sum (quiz_history s))
  else None.

(** Lines 650-680: the summary of the history page, computed on that page
    for a non-empty ledger only: total, average, best. *)
Definition history_summary (sum : list float → float) (s : SessionState)
  : option (nat * result float * result float) :=
  if on_page PageHistory s && nonempty (quiz_history s)
  then Some (length (quiz_history s), average sum (quiz_history s),
             best (quiz_history s))
  else None.

(** Lines 684-685: [for i, rec in enumerate(reversed(quiz_history))] with
    [idx = len(quiz_history) - i]: the rows of the history page, each with
    the number it is shown under. *)
Definition history_rows (h : list HistoryRecord) : list (nat * HistoryRecord) :=
  imap (fun i rec => (length h - i, rec)) (rev h).

End Views.
Export Views.

(** ** More vocabulary *)

Module Terms.

(** A chat-completion body whose first choice carries the text [content],
    whatever else it holds (line 88). *)
Definition carries (body : JSON) (content : pystr) : Prop :=
  ∃ choices choice message,
    subscript_key body (py "choices") = Ok choices ∧
    subscript_int choices 0 = Ok choice ∧
    subscript_key choice (py "message") = Ok message ∧
    subscript_key message (py "content") = Ok (JStr content).

(** The message for a status code other than 200 (lines 80-86). *)
Definition status_message (code : nat) : pystr :=
  if bool_decide (code = 401) then msg_invalid_key
  else if bool_decide (code = 429) then msg_rate_limit
  else py "API Error " ++ str_of_nat code.

(** The fields a button leaves alone when it only changes the quiz, the
    answers, the flags and the page. *)
Definition same_settings (s s' : SessionState) : Prop :=
  paragraphs s' = paragraphs s ∧ quiz_history s' = quiz_history s ∧
  current_paragraph s' = current_paragraph s ∧
  dark_mode s' = dark_mode s ∧ num_questions s' = num_questions s.

(** A world in which the API answers with the status [code] and a body that
    cannot be read. *)
Definition env_refusing (code : nat) : Env :=
  {| API_KEY := py "sk-sample";
     post := fun _ => Ok {| status_code := code;
                            json := Raise (Builtin (ExpectedString NoneType)) |};
     json_loads := Sample.loads;
     draws := fun k => k;
     describe := fun _ => py "error" |}.

End Terms.
Export Terms.

(** * Properties *)

(** ** The option shuffler *)

Module ShuffleFacts.

Lemma insert_swaps_in {A : Type} (r : list A) (j : nat) (b y : A) :
  r !! j = Some b → b :: <[j := y]> r ≡ₚ y :: r.
Proof.
  revert j. induction r as [|z r IH]; intros [|j] H; simplify_eq/=.
  - apply perm_swap.
  - rewrite (perm_swap z b), (IH _ H). apply perm_swap.
Qed.

Lemma swap_Permutation {A : Type} (x : list A) (i j : nat) : swap x i j ≡ₚ x.
Proof.
  unfold swap. revert i j. induction x as [|y r IH]; intros i j.
  - by destruct i.
  - destruct i as [|i], j as [|j]; simpl.
    + done.
    + destruct (r !! j) as [b|] eqn:Hj; [|done]. simpl.
      by apply insert_swaps_in.
    + destruct (r !! i) as [a|] eqn:Hi; [|done]. simpl.
      by apply insert_swaps_in.
    + specialize (IH i j).
      destruct (r !! i) as [a|], (r !! j) as [b|]; simpl in *; try done.
      by rewrite IH.
Qed.

Lemma shuffle_from_Permutation {A : Type} draws (i : nat) (x : list A) (k : nat) :
  (shuffle_from draws i x k).1 ≡ₚ x.
Proof.
  revert x k. induction i as [|i IH]; intros x k; simpl; [done|].
  rewrite IH. apply swap_Permutation.
Qed.

Lemma shuffle_Permutation {A : Type} draws (x : list A) (k : nat) :
  (shuffle draws x k).1 ≡ₚ x.
Proof. apply shuffle_from_Permutation. Qed.

Lemma dict_get_set_eq k v d : dict_get k (dict_set k v d) = Some v.
Proof.
  induction d as [|[k' v'] d IH]; simpl.
  - by rewrite bool_decide_eq_true_2.
  - destruct (bool_decide (k' = k)) eqn:E; simpl; rewrite E; done.
Qed.

Lemma dict_get_set_ne k k' v d :
  k ≠ k' → dict_get k' (dict_set k v d) = dict_get k' d.
Proof.
  intros Hne. induction d as [|[k0 v0] d IH]; simpl.
  - by rewrite bool_decide_eq_false_2.
  - destruct (bool_decide (k0 = k)) eqn:E; simpl.
    + apply bool_decide_eq_true_1 in E as ->.
      by rewrite bool_decide_eq_false_2.
    + by rewrite IH.
Qed.

(** One turn of the loop on a question with the three keys. *)
Lemma shuffle_options_cons env q a opts rest k :
  question_with q a opts →
  shuffle_options env (q :: rest) k =
    (r ← shuffle_options env rest (shuffle (draws env) opts k).2;
     match r with
     | Next rest' => Ok (Next (shuffled_question env q a opts k :: rest'))
     | Return r => Ok (Return r)
     end).
Proof.
  intros (d & -> & Hq & Ha & Ho).
  cbn [shuffle_options]. unfold has_keys. cbn [contains mbind result_bind].
  rewrite Ho, Ha. rewrite !bool_decide_eq_true_2 by (done || eauto).
  cbn [subscript_key mbind result_bind].
  rewrite Ha, Ho. cbn [random_shuffle mbind result_bind shuffled_question].
  destruct (shuffle (draws env) opts k) as [l' k'] eqn:E.
  reflexivity.
Qed.

Lemma shuffled_question_with env q a opts k :
  question_with q a opts →
  question_with (shuffled_question env q a opts k) a (shuffle (draws env) opts k).1.
Proof.
  intros (d & -> & Hq & Ha & Ho). eexists. split; [reflexivity|].
  rewrite dict_get_set_eq.
  rewrite !dict_get_set_ne by (by vm_compute).
  rewrite dict_get_set_eq. done.
Qed.

(** C1. On a quiz whose questions carry the three keys, a list of options
    and an answer that is one of them, the shuffle loop runs to its end,
    and every question it leaves behind has a permutation of the options it
    had, the answer it had, and that answer among its options. *)
Theorem shuffle_keeps_options_and_answer env (qs : list JSON) (k : nat) :
  Forall (fun q => ∃ a opts, question_with q a opts ∧ a ∈ opts) qs →
  ∃ qs', shuffle_options env qs k = Ok (Next qs') ∧
    Forall2 (fun q q' =>
      ∀ a opts, question_with q a opts →
        ∃ opts', question_with q' a opts' ∧ opts ≡ₚ opts' ∧ a ∈ opts') qs qs'.
Proof.
  intros Hqs. revert k.
  induction Hqs as [|q qs (a & opts & Hq & Hin) _ IH]; intros k.
  - exists []. split; [done | constructor].
  - destruct (IH (shuffle (draws env) opts k).2) as (qs' & Hrun & Hall).
    exists (shuffled_question env q a opts k :: qs'). split.
    + rewrite (shuffle_options_cons _ _ _ _ _ _ Hq), Hrun. done.
    + constructor; [|done].
      intros a' opts' Hq'.
      assert (a' = a ∧ opts' = opts) as [-> ->].
      { destruct Hq as (d & -> & _ & Ha & Ho), Hq' as (d' & [= <-] & _ & Ha' & Ho').
        split; congruence. }
      exists (shuffle (draws env) opts k).1. split_and!.
      * by apply shuffled_question_with.
      * symmetry. apply shuffle_Permutation.
      * by rewrite shuffle_Permutation.
Qed.

Lemma shuffle_keeps_options_and_answer_witness :
  ∃ qs', shuffle_options Sample.env [Sample.q1; Sample.q2] 0 = Ok (Next qs') ∧
    Forall2 (fun q q' =>
      ∀ a opts, question_with q a opts →
        ∃ opts', question_with q' a opts' ∧ opts ≡ₚ opts' ∧ a ∈ opts')
      [Sample.q1; Sample.q2] qs'.
Proof.
  apply (shuffle_keeps_options_and_answer Sample.env [Sample.q1; Sample.q2] 0).
  repeat constructor.
  - exists (JStr (py "b) X")),
      (map (fun o => JStr (py o)) ["a) W"; "b) X"; "c) V"; "d) U"]%string).
    split; [eexists; split; [reflexivity|]; split_and!; [by eexists | done | done]|].
    apply list_elem_of_further, list_elem_of_here.
  - exists (JStr (py "a) Y")),
      (map (fun o => JStr (py o)) ["a) Y"; "b) Y"; "c) T"; "d) S"]%string).
    split; [eexists; split; [reflexivity|]; split_and!; [by eexists | done | done]|].
    apply list_elem_of_here.
Defined.

End ShuffleFacts.

(** ** Strings *)

Module StrFacts.
Import Clean.

Lemma after_prefix_app p s : after_prefix p (p ++ s) = Some s.
Proof. induction p as [|a p IH]; simpl; [done|]. by rewrite N.eqb_refl. Qed.

Lemma after_prefix_cons a p b s :
  after_prefix (a :: p) (b :: s) = if (a =? b)%N then after_prefix p s else None.
Proof. reflexivity. Qed.

Lemma after_prefix_head_ne a p b s : a ≠ b → after_prefix (a :: p) (b :: s) = None.
Proof. intros H. simpl. by apply N.eqb_neq in H as ->. Qed.

Lemma before_suffix_app p s : before_suffix p (s ++ p) = Some s.
Proof.
  unfold before_suffix. rewrite rev_app_distr, after_prefix_app. simpl.
  by rewrite rev_involutive.
Qed.

Lemma lstrip_whitespace_app w s : whitespace w → lstrip (w ++ s) = lstrip s.
Proof. induction 1 as [|c w Hc _ IH]; simpl; [done|]. by rewrite Hc. Qed.

Lemma lstrip_head c s : isspace c = false → lstrip (c :: s) = c :: s.
Proof. intros H. simpl. by rewrite H. Qed.

Lemma rstrip_whitespace w : whitespace w → rstrip w = [].
Proof. induction 1 as [|c w Hc _ IH]; simpl; [done|]. by rewrite IH, Hc. Qed.

Lemma rstrip_app_whitespace s w : whitespace w → rstrip (s ++ w) = rstrip s.
Proof.
  intros Hw. induction s as [|c s IH]; simpl.
  - by apply rstrip_whitespace.
  - by rewrite IH.
Qed.

Lemma rstrip_last s c : isspace c = false → rstrip (s ++ [c]) = s ++ [c].
Proof.
  intros Hc. induction s as [|x s IH]; simpl.
  - by rewrite Hc.
  - rewrite IH. by destruct s.
Qed.

Lemma strip_whitespace text : whitespace text → strip text = [].
Proof.
  intros H. unfold strip.
  rewrite <- (app_nil_r text), lstrip_whitespace_app by done. done.
Qed.

Lemma isspace_not c x : isspace x = false → isspace c = true → c ≠ x.
Proof. intros Hx Hc ->. congruence. Qed.

(** The text of an object, stripped: the braces and what is between them. *)
Lemma strip_object w1 body w2 :
  whitespace w1 → whitespace w2 →
  strip (w1 ++ [lbrace] ++ body ++ [rbrace] ++ w2) = [lbrace] ++ body ++ [rbrace].
Proof.
  intros H1 H2. unfold strip.
  rewrite lstrip_whitespace_app by done.
  simpl app. rewrite lstrip_head by done.
  change (lbrace :: body ++ rbrace :: w2) with ((lbrace :: body) ++ [rbrace] ++ w2).
  rewrite app_assoc, rstrip_app_whitespace by done.
  by rewrite rstrip_last.
Qed.

Lemma open_fence_head : py "```json" = backtick :: py "``json".
Proof. reflexivity. Qed.

Lemma close_fence_rev : rev (py "```") = backtick :: py "``".
Proof. reflexivity. Qed.

Lemma close_fence_newline_rev :
  rev (py "```" ++ [newline]) = newline :: backtick :: py "``".
Proof. reflexivity. Qed.

Lemma lstrip_suffix s : ∃ w, s = w ++ lstrip s ∧ whitespace w.
Proof.
  induction s as [|c s (w & E & Hw)].
  { exists []. split; [done | constructor]. }
  cbn [lstrip]. destruct (isspace c) eqn:Hc.
  - exists (c :: w). split; [by rewrite E at 1 | by constructor].
  - exists []. split; [done | constructor].
Qed.

Lemma after_prefix_Some p s r : after_prefix p s = Some r → s = p ++ r.
Proof.
  revert s. induction p as [|a p IH]; intros [|c s] H; simplify_eq/=; try done.
  destruct (a =? c)%N eqn:E; [|done]. apply N.eqb_eq in E as ->.
  by rewrite (IH _ H).
Qed.

Lemma before_suffix_Some p s f : before_suffix p s = Some f ↔ s = f ++ p.
Proof.
  split; [|intros ->; apply before_suffix_app].
  unfold before_suffix.
  destruct (after_prefix (rev p) (rev s)) as [g|] eqn:E; [|done].
  intros [= <-]. apply after_prefix_Some in E.
  apply (f_equal (@rev N)) in E.
  by rewrite rev_involutive, rev_app_distr, rev_involutive in E.
Qed.

Lemma before_suffix_None p s : before_suffix p s = None ↔ ∀ f, s ≠ f ++ p.
Proof.
  destruct (before_suffix p s) as [f|] eqn:E.
  - apply before_suffix_Some in E. split; [done|]. intros H. by destruct (H f).
  - split; [|done]. intros _ f Hf. apply before_suffix_Some in Hf. congruence.
Qed.

Lemma rstrip_nil s : rstrip s = [] → whitespace s.
Proof.
  induction s as [|c s IH]; [constructor|]. cbn [rstrip].
  destruct (rstrip s) eqn:E; [|done].
  destruct (isspace c) eqn:Hc; [|done]. intros _. constructor; [done|by apply IH].
Qed.

Lemma rstrip_cons c s :
  ¬ (isspace c = true ∧ whitespace s) → rstrip (c :: s) = c :: rstrip s.
Proof.
  intros H. cbn [rstrip]. destruct (rstrip s) eqn:E; [|done].
  destruct (isspace c) eqn:Hc; [|done].
  destruct H. split; [done|]. by apply rstrip_nil.
Qed.

End StrFacts.

(** ** The three patterns *)

Module ReFacts.
Import Clean Re StrFacts.

(** A literal matches when the string starts with it. *)
Lemma match_lit a l p' b s :
  match_here (map (fun c => One (Literal c)) (a :: l) ++ p') b s =
  match after_prefix (a :: l) s with
  | Some r => match_here p' false r
  | None => None
  end.
Proof.
  revert a b s. induction l as [|a' l IH]; intros a b s.
  - destruct s as [|c s]; [done|]. cbn. by destruct (a =? c)%N.
  - destruct s as [|c s]; [done|].
    cbn [map app match_here in_cls after_prefix].
    destruct (a =? c)%N; [|done]. apply (IH a' false s).
Qed.

Lemma match_star_whitespace b s : match_here [Star Whitespace] b s = Some (lstrip s).
Proof.
  cbn [match_here].
  revert b. induction s as [|c s IH]; intros b; [done|].
  cbn [star in_cls lstrip]. destruct (isspace c); [|done].
  by rewrite IH.
Qed.

Lemma sub_from_skip p pre rest :
  sub_from p false (length pre) (pre ++ rest) = sub_from p false 0 rest.
Proof.
  induction pre as [|c pre IH]; [done|]. exact IH.
Qed.

Lemma sub_from_match p b c pre rest :
  match_here p b (c :: pre ++ rest) = Some rest →
  sub_from p b 0 (c :: pre ++ rest) = sub_from p false 0 rest.
Proof.
  intros H. cbn [sub_from]. rewrite H.
  replace (length (c :: pre ++ rest) - length rest) with (S (length pre))
    by (cbn [length]; rewrite length_app; lia).
  apply sub_from_skip.
Qed.

Lemma sub_from_none p s :
  (∀ t, match_here p false t = None) → sub_from p false 0 s = s.
Proof.
  intros H. induction s as [|c s IH]; [done|].
  cbn [sub_from]. by rewrite H, IH.
Qed.

Lemma sub_from_head_none p b c s :
  match_here p b (c :: s) = None →
  sub_from p b 0 (c :: s) = c :: sub_from p false 0 s.
Proof. intros H. cbn [sub_from]. by rewrite H. Qed.

(** The opening fence. *)
Lemma match_open_fence b s :
  match_here open_fence b s =
  if b then option_map lstrip (after_prefix (py "```json") s) else None.
Proof.
  unfold open_fence. cbn [match_here]. destruct b; [|done].
  change (lit "```json") with (map (fun c => One (Literal c)) (backtick :: py "``json")).
  rewrite match_lit. change (backtick :: py "``json") with (py "```json").
  destruct (after_prefix (py "```json") s); [|done].
  apply match_star_whitespace.
Qed.

(** [re.sub(r'^```json\s*', '', s)] removes the marker at offset 0 and the
    whitespace after it, and nothing else. *)
Lemma sub_open_fence_agrees s : Re.sub open_fence s = sub_open_fence s.
Proof.
  unfold Re.sub, sub_open_fence.
  assert (∀ t, sub_from open_fence false 0 t = t) as Hrest.
  { intros t. apply sub_from_none. intros u. by rewrite match_open_fence. }
  destruct (after_prefix (py "```json") s) as [r|] eqn:E.
  - apply after_prefix_Some in E as ->.
    destruct (lstrip_suffix r) as (w & Er & _).
    rewrite Er at 1.
    change (py "```json" ++ w ++ lstrip r)
      with (backtick :: (py "``json" ++ w ++ lstrip r)).
    rewrite (app_assoc (py "``json")).
    rewrite sub_from_match; [apply Hrest|].
    rewrite match_open_fence.
    rewrite <- app_assoc.
    change (backtick :: py "``json" ++ w ++ lstrip r)
      with (py "```json" ++ (w ++ lstrip r)).
    rewrite after_prefix_app. cbn [option_map].
    by rewrite <- Er.
  - destruct s as [|c s]; [done|].
    rewrite sub_from_head_none; [by rewrite Hrest|].
    rewrite match_open_fence. by rewrite E.
Qed.

(** The brace span: the greedy [.*] followed by a character ends at the
    last occurrence of that character. *)
Lemma star_any_then c b s :
  star AnyChar (match_here [One (Literal c)]) b s = after_last c s.
Proof.
  revert b. induction s as [|x r IH]; intros b; [done|].
  cbn [star in_cls after_last]. rewrite IH.
  destruct (after_last c r); [done|]. cbn. by destruct (c =? x)%N.
Qed.

Lemma match_brace_span b s :
  match_here brace_span b s =
  match s with
  | x :: r => if (lbrace =? x)%N then after_last rbrace r else None
  | [] => None
  end.
Proof.
  destruct s as [|x r]; [done|].
  cbn [brace_span lit py map list_ascii_of_string app match_here in_cls].
  change (N_of_ascii "{") with lbrace.
  destruct (lbrace =? x)%N; [|done].
  apply (star_any_then rbrace).
Qed.

Lemma after_last_None c s : after_last c s = None ↔ c ∉ s.
Proof.
  induction s as [|x r IH]; cbn [after_last].
  - split; [intros _; apply not_elem_of_nil | done].
  - rewrite not_elem_of_cons. destruct (after_last c r) as [t|].
    + split; [done|]. intros [_ H]. by apply IH in H.
    + destruct (c =? x)%N eqn:E.
      * apply N.eqb_eq in E. split; [done|]. by intros [? _].
      * apply N.eqb_neq in E. split; [|done]. intros _. split; [done|]. by apply IH.
Qed.

Lemma after_last_Some c s t :
  after_last c s = Some t → ∃ u, s = u ++ c :: t ∧ c ∉ t.
Proof.
  revert t. induction s as [|x r IH]; intros t; cbn [after_last]; [done|].
  destruct (after_last c r) as [t'|] eqn:E.
  - intros [= <-]. destruct (IH t' eq_refl) as (u & -> & Hn).
    by exists (x :: u).
  - destruct (c =? x)%N eqn:Ex; [|done]. intros [= <-].
    apply N.eqb_eq in Ex as <-. exists []. split; [done|].
    by apply after_last_None.
Qed.

Lemma from_first_absent c s : c ∉ s → from_first c s = [].
Proof.
  induction s as [|x r IH]; [done|]. rewrite not_elem_of_cons. intros [Hx Hr].
  cbn [from_first]. apply not_eq_sym, N.eqb_neq in Hx. by rewrite Hx, IH.
Qed.

Lemma from_first_app c pre post :
  c ∉ pre → from_first c (pre ++ c :: post) = c :: post.
Proof.
  induction pre as [|x r IH]; cbn [app from_first].
  - by rewrite N.eqb_refl.
  - rewrite not_elem_of_cons. intros [Hx Hr].
    apply not_eq_sym, N.eqb_neq in Hx. by rewrite Hx, IH.
Qed.

Lemma elem_of_rev_iff (c : N) (s : pystr) : c ∈ rev s ↔ c ∈ s.
Proof. by rewrite !list_elem_of_In, <- in_rev. Qed.

Lemma search_brace_span_absent b s :
  rbrace ∉ s → search_from brace_span b s = None.
Proof.
  revert b. induction s as [|x r IH]; intros b Hs.
  - done.
  - cbn [search_from]. rewrite match_brace_span.
    apply not_elem_of_cons in Hs as [Hx Hr].
    replace (after_last rbrace r) with (@None pystr)
      by (symmetry; by apply after_last_None).
    destruct (lbrace =? x)%N; by apply IH.
Qed.

(** [re.search(r'\{.*\}', s, re.DOTALL)] finds the text from the first
    opening brace to the last closing brace after it. *)
Lemma search_brace_span_agrees s : Re.search brace_span s = search_braces s.
Proof.
  unfold Re.search. generalize true.
  induction s as [|x r IH]; intros b; [done|].
  cbn [search_from]. rewrite match_brace_span.
  unfold search_braces. cbn [from_first].
  rewrite (N.eqb_sym x lbrace).
  destruct (lbrace =? x)%N eqn:Ex.
  - apply N.eqb_eq in Ex as <-.
    destruct (after_last rbrace r) as [t|] eqn:E.
    + apply after_last_Some in E as (u & -> & Hn).
      replace (length (lbrace :: u ++ rbrace :: t) - length t)
        with (length (lbrace :: u ++ [rbrace]))
        by (cbn [length]; rewrite !length_app; cbn [length]; lia).
      replace (lbrace :: u ++ rbrace :: t) with ((lbrace :: u ++ [rbrace]) ++ t)
        by (cbn [app]; by rewrite <- app_assoc).
      rewrite take_app_length.
      unfold upto_last. rewrite rev_app_distr.
      replace (rev (lbrace :: u ++ [rbrace])) with (rbrace :: rev (lbrace :: u))
        by (change (lbrace :: u ++ [rbrace]) with ((lbrace :: u) ++ [rbrace]);
            by rewrite rev_app_distr).
      rewrite from_first_app by (by rewrite elem_of_rev_iff).
      change (rbrace :: rev (lbrace :: u)) with (rev [rbrace] ++ rev (lbrace :: u)).
      rewrite <- rev_app_distr, rev_involutive.
      done.
    + apply after_last_None in E.
      rewrite search_brace_span_absent by done.
      unfold upto_last. rewrite from_first_absent; [done|].
      rewrite elem_of_rev_iff. apply not_elem_of_cons. split; [done|done].
  - rewrite IH. done.
Qed.

(** The closing fence: three backticks where [$] holds. *)
Lemma match_fence_tail b s :
  match_here (lit "```" ++ [Eol]) b s =
  match after_prefix (py "```") s with
  | Some r => if at_end r then Some r else None
  | None => None
  end.
Proof.
  change (lit "```") with (map (fun c => One (Literal c)) (backtick :: py "``")).
  rewrite match_lit. change (backtick :: py "``") with (py "```").
  destruct (after_prefix (py "```") s); [|done]. done.
Qed.

Lemma match_close_fence b s : match_here close_fence b s = fence_at_head s.
Proof.
  unfold close_fence, fence_at_head. cbn [match_here].
  revert b. induction s as [|x r IH]; intros b.
  - cbn [star lstrip]. apply match_fence_tail.
  - cbn [star in_cls lstrip]. destruct (isspace x) eqn:Hx.
    + rewrite IH.
      assert (match_here (lit "```" ++ [Eol]) b (x :: r) = None) as ->.
      { rewrite match_fence_tail. change (py "```") with (backtick :: py "``").
        rewrite after_prefix_head_ne; [done|].
        apply not_eq_sym, isspace_not; done. }
      destruct (after_prefix (py "```") (lstrip r)) as [t|]; [|done].
      by destruct (at_end t).
    + apply match_fence_tail.
Qed.

Lemma at_end_cases r : at_end r = true → r = [] ∨ r = [newline].
Proof.
  destruct r as [|c [|? ?]]; [by left| |done].
  cbn. intros E. apply N.eqb_eq in E as ->. by right.
Qed.

Lemma fence_at_head_Some s r :
  fence_at_head s = Some r →
  ∃ w, whitespace w ∧ s = w ++ py "```" ++ r ∧ at_end r = true.
Proof.
  unfold fence_at_head.
  destruct (after_prefix (py "```") (lstrip s)) as [t|] eqn:E; [|done].
  destruct (at_end t) eqn:Ht; [|done]. intros [= <-].
  apply after_prefix_Some in E.
  destruct (lstrip_suffix s) as (w & Es & Hw).
  exists w. split_and!; [done| |done]. by rewrite <- E.
Qed.

Lemma fence_at_head_intro w r :
  whitespace w → at_end r = true → fence_at_head (w ++ py "```" ++ r) = Some r.
Proof.
  intros Hw Hr. unfold fence_at_head.
  rewrite lstrip_whitespace_app by done.
  change (lstrip (py "```" ++ r)) with (py "```" ++ r).
  by rewrite after_prefix_app, Hr.
Qed.

Lemma sub_close_fence_tail b r :
  at_end r = true → sub_from close_fence b 0 r = r.
Proof.
  intros [-> | ->]%at_end_cases; [done|].
  cbn [sub_from]. rewrite match_close_fence. done.
Qed.

Lemma sub_close_fence_at_fence w r :
  whitespace w → at_end r = true → sub_close_fence (w ++ py "```" ++ r) = r.
Proof.
  intros Hw [-> | ->]%at_end_cases; unfold sub_close_fence.
  - rewrite app_nil_r, before_suffix_app.
    by apply rstrip_whitespace.
  - replace (before_suffix (py "```") (w ++ py "```" ++ [newline])) with (@None pystr).
    2: { symmetry. apply before_suffix_None. intros f Hf.
         apply (f_equal (@rev N)) in Hf.
         rewrite !rev_app_distr in Hf. by cbn in Hf. }
    rewrite before_suffix_app.
    by rewrite rstrip_whitespace.
Qed.

Lemma sub_from_match_app p b pre rest :
  pre ≠ [] → match_here p b (pre ++ rest) = Some rest →
  sub_from p b 0 (pre ++ rest) = sub_from p false 0 rest.
Proof.
  destruct pre as [|c pre]; [done|]. intros _. apply sub_from_match.
Qed.

Lemma sub_close_fence_cons c s :
  fence_at_head (c :: s) = None →
  sub_close_fence (c :: s) = c :: sub_close_fence s.
Proof.
  intros Hhead.
  assert (∀ w r, whitespace w → at_end r = true → c :: s ≠ w ++ py "```" ++ r) as Hno.
  { intros w r Hw Hr E. rewrite E, fence_at_head_intro in Hhead; done. }
  assert (∀ f tail, at_end tail = true → s = f ++ py "```" ++ tail →
            rstrip (c :: f) = c :: rstrip f) as Hstrip.
  { intros f tail Ht ->. apply rstrip_cons. intros [Hc Hf].
    apply (Hno (c :: f) tail); [by constructor|done|done]. }
  unfold sub_close_fence.
  destruct (before_suffix (py "```") s) as [f|] eqn:E1.
  - apply before_suffix_Some in E1.
    rewrite (proj2 (before_suffix_Some _ (c :: s) (c :: f))) by (by rewrite E1).
    apply (Hstrip f []); [done|by rewrite app_nil_r].
  - assert (before_suffix (py "```") (c :: s) = None) as ->.
    { apply before_suffix_None. intros [|x f] Hf.
      - apply (Hno [] []); [constructor|done|]. by rewrite app_nil_r.
      - injection Hf as -> ->. by rewrite before_suffix_app in E1. }
    destruct (before_suffix (py "```" ++ [newline]) s) as [f|] eqn:E2.
    + apply before_suffix_Some in E2.
      rewrite (proj2 (before_suffix_Some _ (c :: s) (c :: f))) by (by rewrite E2).
      rewrite (Hstrip f [newline]); done.
    + assert (before_suffix (py "```" ++ [newline]) (c :: s) = None) as ->; [|done].
      apply before_suffix_None. intros [|x f] Hf.
      * apply (Hno [] [newline]); [constructor|done|]. by rewrite Hf.
      * injection Hf as -> ->. by rewrite before_suffix_app in E2.
Qed.

(** [re.sub(r'\s*```$', '', s)] removes the backticks that end the string
    (or stand before its final newline) and the whitespace before them. *)
Lemma sub_close_fence_agrees s : Re.sub close_fence s = sub_close_fence s.
Proof.
  unfold Re.sub. generalize true.
  induction s as [|c s IH]; intros b; [done|].
  destruct (fence_at_head (c :: s)) as [r|] eqn:E.
  - apply fence_at_head_Some in E as (w & Hw & Es & Hr).
    rewrite Es, sub_close_fence_at_fence by done.
    rewrite app_assoc.
    rewrite sub_from_match_app.
    + by apply sub_close_fence_tail.
    + by destruct w.
    + rewrite match_close_fence, <- app_assoc. by apply fence_at_head_intro.
  - rewrite sub_from_head_none by (by rewrite match_close_fence).
    by rewrite IH, sub_close_fence_cons.
Qed.

(** The matcher on a few texts. *)
Example sub_close_fence_keeps_inner_fence :
  Re.sub close_fence (py "``` ```") = py "```".
Proof. reflexivity. Qed.

Example sub_open_fence_once :
  Re.sub open_fence (py "```json```json x") = py "```json x".
Proof. reflexivity. Qed.

Example search_is_greedy :
  Re.search brace_span (py "a {b} c } d") = Some (py "{b} c }").
Proof. reflexivity. Qed.

Example search_needs_brace_after :
  Re.search brace_span (py "} {") = None.
Proof. reflexivity. Qed.

End ReFacts.

(** ** Cleaning and decoding the reply *)

Module CleanFacts.
Import Clean StrFacts ReFacts.

(** Lines 91-93 without the matcher. *)
Lemma clean_closed_form s : clean s = strip (sub_close_fence (sub_open_fence s)).
Proof. unfold clean. by rewrite sub_open_fence_agrees, sub_close_fence_agrees. Qed.

(** Neither substitution finds a fence on the text of an object. *)
Lemma sub_open_fence_object w1 rest :
  whitespace w1 → sub_open_fence (w1 ++ lbrace :: rest) = w1 ++ lbrace :: rest.
Proof.
  intros H. unfold sub_open_fence. rewrite open_fence_head.
  destruct H as [|c w Hc _]; simpl app.
  - by rewrite after_prefix_head_ne.
  - rewrite after_prefix_head_ne; [done|].
    apply not_eq_sym, isspace_not; done.
Qed.

Lemma sub_close_fence_object front w2 :
  whitespace w2 →
  sub_close_fence (front ++ rbrace :: w2) = front ++ rbrace :: w2.
Proof.
  intros H. unfold sub_close_fence, before_suffix.
  rewrite close_fence_rev, close_fence_newline_rev.
  change (front ++ rbrace :: w2) with (front ++ [rbrace] ++ w2).
  rewrite !rev_app_distr.
  apply Forall_rev in H.
  destruct (rev w2) as [|c [|c2 t]]; simpl app.
  - rewrite after_prefix_head_ne by done. cbn [option_map].
    rewrite after_prefix_head_ne by done. done.
  - apply Forall_inv in H.
    rewrite after_prefix_head_ne by (apply not_eq_sym, isspace_not; done).
    cbn [option_map]. rewrite after_prefix_cons.
    destruct (newline =? c)%N; [|done].
    rewrite after_prefix_head_ne by done. done.
  - pose proof (Forall_inv H) as Hc.
    pose proof (Forall_inv (Forall_inv_tail H)) as Hc2.
    rewrite after_prefix_head_ne by (apply not_eq_sym, isspace_not; done).
    cbn [option_map]. rewrite after_prefix_cons.
    destruct (newline =? c)%N; [|done].
    rewrite after_prefix_head_ne; [done|].
    apply not_eq_sym, isspace_not; done.
Qed.

Lemma clean_object w1 body w2 :
  whitespace w1 → whitespace w2 →
  clean (w1 ++ [lbrace] ++ body ++ [rbrace] ++ w2) = [lbrace] ++ body ++ [rbrace].
Proof.
  intros H1 H2. rewrite clean_closed_form. simpl app.
  rewrite sub_open_fence_object by done.
  change (w1 ++ lbrace :: body ++ rbrace :: w2)
    with (w1 ++ (lbrace :: body) ++ rbrace :: w2).
  rewrite app_assoc, sub_close_fence_object by done.
  rewrite <- app_assoc. by apply strip_object.
Qed.

Lemma clean_fenced f1 f2 w1 body w2 :
  whitespace f1 → whitespace f2 → whitespace w1 → whitespace w2 →
  clean (fenced f1 f2 (w1 ++ [lbrace] ++ body ++ [rbrace] ++ w2))
    = [lbrace] ++ body ++ [rbrace].
Proof.
  intros Hf1 Hf2 H1 H2. rewrite clean_closed_form. unfold fenced, sub_open_fence.
  rewrite after_prefix_app.
  rewrite lstrip_whitespace_app by done.
  rewrite <- !app_assoc.
  rewrite lstrip_whitespace_app by done.
  simpl app. rewrite lstrip_head by done.
  unfold sub_close_fence.
  replace (lbrace :: body ++ rbrace :: w2 ++ f2 ++ py "```")
    with (((lbrace :: body) ++ [rbrace] ++ (w2 ++ f2)) ++ py "```")
    by (rewrite <- !app_assoc; reflexivity).
  rewrite before_suffix_app.
  rewrite app_assoc, rstrip_app_whitespace by (by apply Forall_app).
  rewrite rstrip_last by done.
  unfold strip. simpl app. rewrite lstrip_head by done.
  apply (rstrip_last (lbrace :: body)). done.
Qed.

(** A text without a backtick has no fence to lose. *)
Lemma sub_open_fence_no_backtick s : backtick ∉ s → sub_open_fence s = s.
Proof.
  intros H. unfold sub_open_fence. rewrite open_fence_head.
  destruct s as [|c s]; [done|].
  rewrite after_prefix_head_ne; [done|].
  intros <-. apply H, list_elem_of_here.
Qed.

Lemma sub_close_fence_no_backtick s : backtick ∉ s → sub_close_fence s = s.
Proof.
  intros H. unfold sub_close_fence.
  destruct (before_suffix (py "```") s) as [f|] eqn:E1.
  { apply before_suffix_Some in E1. destruct H. rewrite E1.
    apply elem_of_app. right. apply list_elem_of_here. }
  destruct (before_suffix (py "```" ++ [newline]) s) as [f|] eqn:E2; [|done].
  apply before_suffix_Some in E2. destruct H. rewrite E2.
  apply elem_of_app. right. apply list_elem_of_here.
Qed.

Lemma clean_no_backtick s : backtick ∉ s → clean s = strip s.
Proof.
  intros H. rewrite clean_closed_form.
  by rewrite sub_open_fence_no_backtick, sub_close_fence_no_backtick.
Qed.

(** A run of one character that is no whitespace has nothing to strip. *)
Lemma strip_solid (c : N) (n : nat) :
  isspace c = false → strip (replicate n c) = replicate n c.
Proof.
  intros Hc. destruct n as [|n]; [done|]. unfold strip.
  cbn [replicate]. rewrite lstrip_head by done.
  change (c :: replicate n c) with (replicate (S n) c).
  rewrite replicate_S_end. by apply rstrip_last.
Qed.

(** C5. For the text of a JSON object, braces around any body with
    whitespace around them, wrapped in a [```json] fence and a closing
    fence with whitespace inside them: cleaning the wrapped text and
    cleaning the bare text both leave exactly the object, from its opening
    to its closing brace, with nothing of it lost; cleaning again changes
    nothing; the decoder is given the object in both cases, and so the
    parser returns the same result for both. *)
Theorem fenced_payload_parses_alike env (f1 f2 w1 body w2 : pystr) :
  whitespace f1 → whitespace f2 → whitespace w1 → whitespace w2 →
  let object := [lbrace] ++ body ++ [rbrace] in
  let payload := w1 ++ [lbrace] ++ body ++ [rbrace] ++ w2 in
  clean (fenced f1 f2 payload) = object ∧
  clean payload = object ∧
  strip payload = object ∧
  clean (clean (fenced f1 f2 payload)) = clean (fenced f1 f2 payload) ∧
  (∀ v, json_loads env object = Decoded v →
        parse env (clean (fenced f1 f2 payload)) = Ok (Some v) ∧
        parse env (clean payload) = Ok (Some v)) ∧
  parse env (clean (fenced f1 f2 payload)) = parse env (clean payload) ∧
  respond env (fenced f1 f2 payload) = respond env payload ∧
  read_reply env (reply_with (fenced f1 f2 payload))
    = read_reply env (reply_with payload).
Proof.
  intros Hf1 Hf2 Hw1 Hw2 object payload.
  assert (clean (fenced f1 f2 payload) = object) as Hfenced
    by (by apply clean_fenced).
  assert (clean payload = object) as Hplain by (by apply clean_object).
  assert (respond env (fenced f1 f2 payload) = respond env payload) as Hresp.
  { unfold respond. by rewrite Hfenced, Hplain. }
  split_and!; try done.
  - by apply strip_object.
  - rewrite Hfenced. apply (clean_object [] body []); constructor.
  - intros v Hv. rewrite Hfenced, Hplain. unfold parse. by rewrite Hv.
  - by rewrite Hfenced, Hplain.
Qed.

Lemma fenced_payload_parses_alike_witness :
  let text := fenced [newline] [newline] Sample.payload in
  clean text = Sample.payload ∧
  clean Sample.payload = Sample.payload ∧
  clean (clean text) = clean text ∧
  parse Sample.env (clean text) = Ok (Some Sample.decoded) ∧
  respond Sample.env text = respond Sample.env Sample.payload.
Proof.
  intros text.
  assert ([] ++ [lbrace] ++ removelast (tail Sample.payload) ++ [rbrace] ++ []
          = Sample.payload) as E by (vm_compute; reflexivity).
  assert ([lbrace] ++ removelast (tail Sample.payload) ++ [rbrace]
          = Sample.payload) as E' by (vm_compute; reflexivity).
  pose proof (fenced_payload_parses_alike Sample.env [newline] [newline]
                [] (removelast (tail Sample.payload)) []) as H.
  cbn zeta in H. rewrite E, E' in H.
  destruct H as (H1 & H2 & _ & H4 & H5 & _ & H7 & _); [repeat constructor..|].
  split_and!; [done | done | done | | done].
  apply H5. reflexivity.
Defined.

(** The fenced sample reply decodes to the sample quiz. *)
Example fenced_sample_decodes :
  parse Sample.env (clean (fenced [newline] [newline] Sample.payload))
    = Ok (Some Sample.decoded).
Proof. reflexivity. Qed.

(** A fence followed by a final newline is removed as well. *)
Example fence_with_final_newline :
  clean (fenced [newline] [newline] Sample.payload ++ [newline]) = Sample.payload.
Proof. reflexivity. Qed.

(** Text around the object defeats the direct decode; the brace span is
    what the second decode is given. *)
Example span_of_chatty_reply :
  Re.search brace_span (py "Here you go: " ++ Sample.payload ++ py " Enjoy!")
    = Some Sample.payload.
Proof. reflexivity. Qed.

End CleanFacts.

(** ** The returned pair *)

Module BackendFacts.
Import Clean ShuffleFacts StrFacts ReFacts CleanFacts.

Lemma has_keys_true q :
  has_keys q = Ok true →
  (∃ d, q = JObj d ∧ has_all_keys q) ∨
  (∀ k, ∃ b, subscript_key q k = Raise (Builtin b)).
Proof.
  destruct q as [| | | | s | l | d]; try discriminate.
  - right. intros k. by eexists.
  - right. intros k. by eexists.
  - intros H. left. exists d. split; [done|]. exists d. split; [done|].
    unfold has_keys in H. cbn [contains mbind result_bind] in H.
    repeat case_bool_decide; try discriminate. done.
Qed.

Lemma has_keys_builtin q : builtin_only (has_keys q).
Proof.
  destruct q as [| | | | s | l | d]; try done; unfold has_keys; simpl;
    repeat case_match; done.
Qed.

Lemma has_keys_lacking q : lacks_key q → has_keys q = Ok false.
Proof.
  intros (d & -> & H). unfold has_keys. cbn [contains mbind result_bind].
  destruct H as [H|[H|H]]; rewrite H;
    repeat case_bool_decide; try done;
    match goal with H : is_Some None |- _ => by destruct H end.
Qed.

Lemma random_shuffle_builtin draws v k : builtin_only (random_shuffle draws v k).
Proof. destruct v; simpl; try done; repeat case_match; done. Qed.

(** How the loop can end: with every question kept and carrying the three
    keys, with the format message, or with a built-in exception. *)
Lemma shuffle_options_outcome env qs k :
  match shuffle_options env qs k with
  | Ok (Next qs') =>
      Forall has_all_keys qs ∧ Forall has_all_keys qs' ∧ length qs' = length qs
  | Ok (Return a) => a = (None, Some msg_format)
  | Raise (Builtin _) => True
  | Raise _ => False
  end.
Proof.
  revert k. induction qs as [|q qs IH]; intros k; [done|].
  cbn [shuffle_options].
  pose proof (has_keys_builtin q) as Hb.
  destruct (has_keys q) as [[|]|e] eqn:Hk; cbn [mbind result_bind].
  2: done.
  2: by destruct e.
  destruct (has_keys_true q Hk) as [(d & -> & Hall)|Hraise].
  2: { destruct (Hraise (py "answer")) as [b ->]. done. }
  destruct Hall as (d' & [= <-] & Hq & Ho & Ha).
  cbn [subscript_key].
  destruct Ha as [a Ha], Ho as [o Ho]. rewrite Ha, Ho.
  cbn [mbind result_bind].
  pose proof (random_shuffle_builtin (draws env) o k) as Hs.
  destruct (random_shuffle (draws env) o k) as [[o' k']|e]; cbn [mbind result_bind].
  2: by destruct e.
  cbn [store_key mbind result_bind].
  specialize (IH k').
  destruct (shuffle_options env qs k') as [[qs'|r]|e]; cbn [mbind result_bind].
  - destruct IH as (IH1 & IH2 & IH3). split_and!.
    + constructor; [|done]. eexists. split; [done|]. split_and!; eauto.
    + constructor; [|done]. eexists. split; [done|].
      rewrite dict_get_set_eq.
      rewrite !dict_get_set_ne by (by vm_compute).
      rewrite dict_get_set_eq. split_and!; eauto.
    + simpl. by rewrite IH3.
  - done.
  - done.
Qed.

(** The loop stops at the first question that lacks a key, when the
    questions before it went through. *)
Lemma shuffle_options_stops env before q after k :
  Forall (fun q => ∃ a opts, question_with q a opts) before →
  lacks_key q →
  shuffle_options env (before ++ q :: after) k = Ok (Return (None, Some msg_format)).
Proof.
  intros Hb Hq. revert k.
  induction Hb as [|p before (a & opts & Hp) _ IH]; intros k.
  - cbn [app shuffle_options]. by rewrite has_keys_lacking.
  - cbn [app]. rewrite (shuffle_options_cons _ _ _ _ _ _ Hp), IH. done.
Qed.

Lemma respond_outcome env content :
  match respond env content with
  | Ok (Some v, None) => ∃ qs, v = JArr qs ∧ qs ≠ [] ∧ Forall has_all_keys qs
  | Ok (None, Some m) =>
      (m = msg_parse ∧ parse env (clean content) = Ok None) ∨
      ((m = msg_no_questions ∨ m = msg_format) ∧
       ∃ v, parse env (clean content) = Ok (Some v))
  | Ok _ => False
  | Raise (Builtin _) => parse env (clean content) ≠ Ok None
  | Raise _ => False
  end.
Proof.
  unfold respond.
  assert (builtin_only (parse env (clean content))) as Hb.
  { unfold parse. repeat case_match; done. }
  destruct (parse env (clean content)) as [[quiz_data|]|e];
    cbn [mbind result_bind]; [|by left|by destruct e].
  assert (∃ v, Ok (Some quiz_data) = Ok (Some v)) as HS by eauto.
  destruct quiz_data as [| | | | | |d]; try done.
  cbn [get_default mbind result_bind].
  destruct (truthy (default (JArr []) (dict_get (py "quiz") d))) eqn:Ht;
    cbn [negb]; [|right; eauto].
  destruct (default (JArr []) (dict_get (py "quiz") d)) as [| | | |s|l|items] eqn:Hv;
    cbn [iterate mbind result_bind type_of]; try done.
  - destruct s as [|c s]; [done|]. cbn [map].
    pose proof (shuffle_options_outcome env
      (JStr [c] :: map (fun c => JStr [c]) s) 0) as Ho.
    destruct (shuffle_options _ _ _) as [[qs'|r]|[| |e]];
      cbn [mbind result_bind]; try done.
    + destruct Ho as [Ho _]. apply Forall_inv in Ho as (? & ? & _). done.
    + subst r. right; eauto.
  - pose proof (shuffle_options_outcome env l 0) as Ho.
    destruct (shuffle_options _ _ _) as [[qs'|r]|[| |e]];
      cbn [mbind result_bind]; try done.
    + destruct Ho as (_ & Ho & Hlen). exists qs'. split_and!; try done.
      intros ->. by destruct l.
    + subst r. right; eauto.
  - destruct items as [|[k0 v0] items]; [done|]. cbn [map fst].
    pose proof (shuffle_options_outcome env
      (JStr k0 :: map (fun kv => JStr kv.1) items) 0) as Ho.
    destruct (shuffle_options _ _ _) as [[qs'|r]|[| |e]];
      cbn [mbind result_bind]; try done.
    + destruct Ho as [Ho _]. apply Forall_inv in Ho as (? & ? & _). done.
    + subst r. right; eauto.
Qed.

(** The loop raises at the first entry that is no container, when the
    questions before it went through. *)
Lemma shuffle_options_raises env before q after k :
  Forall (fun q => ∃ a opts, question_with q a opts) before →
  scalar q →
  shuffle_options env (before ++ q :: after) k
    = Raise (Builtin (NotIterable (type_of q))).
Proof.
  intros Hb Hq. revert k.
  induction Hb as [|p before (a & opts & Hp) _ IH]; intros k.
  - cbn [app shuffle_options]. by destruct q.
  - cbn [app]. rewrite (shuffle_options_cons _ _ _ _ _ _ Hp), IH. done.
Qed.

(** The loop raises at a question whose options are a string of two or
    more characters, which the shuffle cannot reorder. *)
Lemma shuffle_options_unshufflable env before d a s after k :
  Forall (fun q => ∃ a opts, question_with q a opts) before →
  is_Some (dict_get (py "question") d) →
  dict_get (py "answer") d = Some a →
  dict_get (py "options") d = Some (JStr s) → 2 ≤ length s →
  shuffle_options env (before ++ JObj d :: after) k
    = Raise (Builtin (NoItemAssignment PyStr)).
Proof.
  intros Hb Hq Ha Ho Hs. revert k.
  induction Hb as [|p before (a' & opts & Hp) _ IH]; intros k.
  - cbn [app shuffle_options]. unfold has_keys.
    cbn [contains mbind result_bind]. rewrite Ho, Ha.
    rewrite !bool_decide_eq_true_2 by done.
    cbn [mbind result_bind subscript_key]. rewrite Ha, Ho.
    cbn [mbind result_bind random_shuffle].
    rewrite bool_decide_eq_false_2 by lia. done.
  - cbn [app]. rewrite (shuffle_options_cons _ _ _ _ _ _ Hp), IH. done.
Qed.

(** C6, as amended. The returned pair carries the parse message exactly
    when the decode of the cleaned text raises a decode error and the
    decode of its brace span, if there is one, does not succeed either;
    when the first decode fails in another way, the pair carries the
    message for unexpected errors. It carries the no-questions message when
    the decoded object has no quiz field, or one that is empty or false in
    another way. It carries the format message when the quiz is a list in
    which an entry is an object that lacks a key and every entry before it
    is an object with the three keys and a list of options; when the entry
    is a number, a boolean or null instead, the key test raises, when it
    has the three keys and a string of two or more characters for its
    options, the shuffle raises, and the pair carries the message for
    unexpected errors. The messages of the code extend the ones quoted. *)
Theorem parser_failure_messages env (content : pystr) :
  let returned := handle env (respond env content) in
  (returned = (None, Some msg_parse) ↔
     json_loads env (clean content) = JSONDecodeError ∧
     ∀ span v, Re.search brace_span (clean content) = Some span →
               json_loads env span ≠ Decoded v) ∧
  (∀ e, json_loads env (clean content) = DecoderFailure e →
     returned = (None, Some (py "Unexpected error: " ++ describe env e))) ∧
  (∀ d, parse env (clean content) = Ok (Some (JObj d)) →
     dict_get (py "quiz") d = None ∨
     (∃ v, dict_get (py "quiz") d = Some v ∧ truthy v = false) →
     returned = (None, Some msg_no_questions)) ∧
  (∀ d before q after, parse env (clean content) = Ok (Some (JObj d)) →
     dict_get (py "quiz") d = Some (JArr (before ++ q :: after)) →
     Forall (fun q => ∃ a opts, question_with q a opts) before →
     (lacks_key q → returned = (None, Some msg_format)) ∧
     (scalar q →
        returned = (None, Some (py "Unexpected error: "
                                  ++ describe env (NotIterable (type_of q))))) ∧
     (∀ d' a s, q = JObj d' →
        is_Some (dict_get (py "question") d') →
        dict_get (py "answer") d' = Some a →
        dict_get (py "options") d' = Some (JStr s) → 2 ≤ length s →
        returned = (None, Some (py "Unexpected error: "
                                  ++ describe env (NoItemAssignment PyStr))))) ∧
  py "Failed to parse quiz response" `prefix_of` msg_parse ∧
  py "No questions were generated" `prefix_of` msg_no_questions ∧
  py "Invalid question format received" `prefix_of` msg_format.
Proof.
  intros returned. subst returned. split_and!.
  - assert (parse env (clean content) = Ok None ↔
            json_loads env (clean content) = JSONDecodeError ∧
            ∀ span v, Re.search brace_span (clean content) = Some span →
                      json_loads env span ≠ Decoded v) as <-.
    { unfold parse. destruct (json_loads env (clean content)).
      - split; [done | by intros [? _]].
      - destruct (Re.search brace_span (clean content)) as [span|].
        + destruct (json_loads env span) eqn:E.
          * split; [done|]. intros [_ H]. by destruct (H span v).
          * split; [|done]. intros _. split; [done|].
            intros ? ? [= <-]. congruence.
          * split; [|done]. intros _. split; [done|].
            intros ? ? [= <-]. congruence.
        + split; [|done]. intros _. split; [done|]. intros ? ? [=].
      - split; [done | by intros [? _]]. }
    split.
    + pose proof (respond_outcome env content) as Ho.
      destruct (respond env content) as [[[v|] [m|]]|[| |e]]; cbn [handle];
        try done.
      intros [= ->].
      destruct Ho as [[_ ?]|[[E|E] _]]; [done|discriminate..].
    + intros E. unfold respond. by rewrite E.
  - intros e He. unfold respond, parse. by rewrite He.
  - intros d Hp Hq. unfold respond. rewrite Hp.
    cbn [get_default mbind result_bind].
    destruct Hq as [-> | (v & -> & Hv)]; [done|].
    cbn [from_option id]. by rewrite Hv.
  - intros d before q after Hp Hq Hb.
    assert (respond env content
            = (r ← shuffle_options env (before ++ q :: after) 0;
               match r with
               | Return a => Ok a
               | Next items' => Ok (Some (JArr items'), None)
               end)) as ->.
    { unfold respond. rewrite Hp.
      cbn [get_default mbind result_bind]. rewrite Hq. cbn [from_option id].
      replace (truthy (JArr (before ++ q :: after))) with true
        by (by destruct before).
      done. }
    split_and!.
    + intros Hl. by rewrite shuffle_options_stops.
    + intros Hl. by rewrite shuffle_options_raises.
    + intros d' a s -> Hqu Ha Ho Hs.
      by rewrite (shuffle_options_unshufflable env before d' a s after 0).
  - by eexists.
  - by eexists.
  - by eexists.
Qed.

Lemma parser_failure_messages_witness :
  handle (Sample.env_replying (py "no json here"))
    (respond (Sample.env_replying (py "no json here")) (py "no json here"))
    = (None, Some msg_parse) ∧
  handle (Sample.env_replying Sample.short_payload)
    (respond (Sample.env_replying Sample.short_payload) Sample.short_payload)
    = (None, Some msg_format).
Proof.
  split.
  - apply (parser_failure_messages
             (Sample.env_replying (py "no json here")) (py "no json here")).
    split; [reflexivity | intros ? ? [=]].
  - destruct (parser_failure_messages
                (Sample.env_replying Sample.short_payload) Sample.short_payload)
      as (_ & _ & _ & H & _).
    refine (proj1 (H _ [Sample.q1] _ [] eq_refl eq_refl _) _).
    + repeat constructor. eexists _, _, _. split; [reflexivity|].
      split_and!; [by eexists | reflexivity | reflexivity].
    + eexists. split; [reflexivity|]. right. right. reflexivity.
Defined.

(** The second question of this reply lacks its answer, yet the error is
    not the format message: the first question has a string for its
    options, and shuffling it raises before the second is looked at. *)
Lemma format_error_masked :
  let env := Sample.env_replying Sample.odd_payload in
  parse env (clean Sample.odd_payload) = Ok (Some Sample.odd_decoded) ∧
  (∃ d qs q, Sample.odd_decoded = JObj d ∧
             dict_get (py "quiz") d = Some (JArr qs) ∧ q ∈ qs ∧ lacks_key q) ∧
  handle env (respond env Sample.odd_payload)
    = (None, Some (py "Unexpected error: "
                     ++ describe env (NoItemAssignment PyStr))) ∧
  handle env (respond env Sample.odd_payload) ≠ (None, Some msg_format) ∧
  (generate_quiz env (py "Some study text.") 2).1 ≠ (None, Some msg_format).
Proof.
  split_and!.
  - reflexivity.
  - eexists _, _, _. split_and!; [reflexivity | reflexivity | |].
    + apply list_elem_of_further, list_elem_of_here.
    + eexists. split; [reflexivity|]. right. right. reflexivity.
  - reflexivity.
  - discriminate.
  - discriminate.
Qed.

(** The only entry of this quiz is the number 5: it has none of the keys,
    yet the error is not the format message, for the key test raises on a
    number. *)
Lemma number_entry_unexpected :
  let env := Sample.env_decoding Sample.loads_number Sample.number_payload in
  parse env (clean Sample.number_payload) = Ok (Some Sample.number_decoded) ∧
  handle env (respond env Sample.number_payload)
    = (None, Some (py "Unexpected error: "
                     ++ describe env (NotIterable PyInt))) ∧
  handle env (respond env Sample.number_payload) ≠ (None, Some msg_format).
Proof. split_and!; [by vm_compute | by vm_compute | discriminate]. Qed.

(** On this reply the first decode fails, and there is no brace span to
    decode instead, yet the error is not the parse message: the failure of
    the decoder is not a decode error, and only that one is caught. *)
Lemma decoder_failure_unexpected :
  let env := Sample.env_decoding Sample.loads_deep Sample.deep_payload in
  clean Sample.deep_payload = Sample.deep_payload ∧
  json_loads env (clean Sample.deep_payload) = DecoderFailure RecursionError ∧
  Re.search brace_span (clean Sample.deep_payload) = None ∧
  handle env (respond env Sample.deep_payload)
    = (None, Some (py "Unexpected error: " ++ describe env RecursionError)) ∧
  handle env (respond env Sample.deep_payload) ≠ (None, Some msg_parse).
Proof.
  assert (∀ c, c ≠ 91%N → c ∉ Sample.deep_payload) as Hin.
  { intros c Hc [-> _]%elem_of_replicate. done. }
  assert (clean Sample.deep_payload = Sample.deep_payload) as E.
  { rewrite clean_no_backtick by (by apply Hin). by apply strip_solid. }
  assert (Sample.loads_deep Sample.deep_payload = DecoderFailure RecursionError)
    as El.
  { unfold Sample.loads_deep. by rewrite bool_decide_eq_true_2. }
  assert (handle (Sample.env_decoding Sample.loads_deep Sample.deep_payload)
            (respond (Sample.env_decoding Sample.loads_deep Sample.deep_payload)
               Sample.deep_payload)
          = (None, Some (py "Unexpected error: " ++ py "error"))) as Eh.
  { unfold respond, parse. rewrite E. cbn [json_loads Sample.env_decoding].
    by rewrite El. }
  cbn zeta. rewrite E. split_and!; [done | done | | done |].
  - rewrite search_brace_span_agrees. unfold search_braces.
    rewrite from_first_absent; [done|]. by apply Hin.
  - rewrite Eh. discriminate.
Qed.

(** C6, counterexample. Three replies on which the claim names the wrong
    message: an incomplete question behind one that cannot be shuffled, an
    entry that is a number, and a text the decoder gives up on. *)
Lemma parser_messages_differ :
  (let env := Sample.env_replying Sample.odd_payload in
   (∃ d qs q, Sample.odd_decoded = JObj d ∧
              dict_get (py "quiz") d = Some (JArr qs) ∧ q ∈ qs ∧ lacks_key q) ∧
   handle env (respond env Sample.odd_payload) ≠ (None, Some msg_format)) ∧
  (let env := Sample.env_decoding Sample.loads_number Sample.number_payload in
   parse env (clean Sample.number_payload) = Ok (Some Sample.number_decoded) ∧
   handle env (respond env Sample.number_payload) ≠ (None, Some msg_format)) ∧
  (let env := Sample.env_decoding Sample.loads_deep Sample.deep_payload in
   json_loads env (clean Sample.deep_payload) = DecoderFailure RecursionError ∧
   Re.search brace_span (clean Sample.deep_payload) = None ∧
   handle env (respond env Sample.deep_payload) ≠ (None, Some msg_parse)).
Proof.
  pose proof format_error_masked as (_ & H1 & _ & H2 & _).
  pose proof number_entry_unexpected as (H3 & _ & H4).
  pose proof decoder_failure_unexpected as (_ & H5 & H6 & _ & H7).
  exact (conj (conj H1 H2) (conj (conj H3 H4) (conj H5 (conj H6 H7)))).
Qed.

Lemma error_pair msg : msg ≠ [] → quiz_or_error (None, Some msg).
Proof. right. eauto. Qed.

Lemma handle_quiz_or_error env (r : result answer) :
  (∀ a, r = Ok a → quiz_or_error a) → quiz_or_error (handle env r).
Proof.
  intros H. destruct r as [a|[m|m|e]]; cbn [handle]; [by apply H|..];
    by apply error_pair.
Qed.

Lemma respond_quiz_or_error env content a :
  respond env content = Ok a → quiz_or_error a.
Proof.
  intros E. pose proof (respond_outcome env content) as Ho. rewrite E in Ho.
  destruct a as [[v|] [m|]]; try done.
  - left. destruct Ho as (qs & -> & ? & ?). eauto.
  - apply error_pair. destruct Ho as [[-> _]|[[-> | ->] _]]; done.
Qed.

Lemma read_reply_quiz_or_error env body a :
  read_reply env body = Ok a → quiz_or_error a.
Proof.
  unfold read_reply.
  destruct (subscript_key body (py "choices")) as [choices|]; [|done].
  cbn [mbind result_bind].
  destruct (subscript_int choices 0) as [choice|]; [|done].
  cbn [mbind result_bind].
  destruct (subscript_key choice (py "message")) as [message|]; [|done].
  cbn [mbind result_bind].
  destruct (subscript_key message (py "content")) as [content|]; [|done].
  cbn [mbind result_bind].
  destruct (as_text content) as [text|]; [|done].
  cbn [mbind result_bind]. apply respond_quiz_or_error.
Qed.

Lemma attempt_quiz_or_error env req a :
  attempt env req = Ok a → quiz_or_error a.
Proof.
  unfold attempt. destruct (post env req) as [response|]; [|done].
  cbn [mbind result_bind].
  repeat case_bool_decide.
  - intros [= <-]. by apply error_pair.
  - intros [= <-]. by apply error_pair.
  - intros [= <-]. by apply error_pair.
  - destruct (json response) as [body|]; [|done].
    cbn [mbind result_bind]. apply read_reply_quiz_or_error.
Qed.

(** C10. Whatever the text, the count and the world, [generate_quiz] returns
    a pair (every exception of the [try] body ends in one of the three
    handlers), and the pair is either a non-empty list of question objects
    with the keys question, options and answer, together with no error, or
    no quiz together with a non-empty message. *)
Theorem generate_quiz_returns_quiz_or_error env (text : pystr) (n : nat) :
  ∃ quiz error, (generate_quiz env text n).1 = (quiz, error) ∧
    ((∃ qs, quiz = Some (JArr qs) ∧ error = None ∧
            qs ≠ [] ∧ Forall has_all_keys qs) ∨
     (∃ msg, quiz = None ∧ error = Some msg ∧ msg ≠ [])).
Proof.
  assert (quiz_or_error (generate_quiz env text n).1) as H.
  { unfold generate_quiz.
    destruct (_ || _); [by apply error_pair|].
    destruct (negb _); [by apply error_pair|].
    cbn [fst]. apply handle_quiz_or_error, attempt_quiz_or_error. }
  destruct H as [(qs & -> & ? & ?)|(msg & -> & ?)]; eexists _, _;
    (split; [reflexivity|]); [left|right]; eauto.
Qed.

(** C8. For a text that is empty or all whitespace, and any count,
    [generate_quiz] returns no quiz and the message asking for text, sends
    no request, and the button that called it leaves the session as it
    was. *)
Theorem blank_text_is_rejected env (text : pystr) (n : nat) :
  whitespace text →
  generate_quiz env text n = ((None, Some msg_no_text), []) ∧
  ∀ s i, paragraphs s !! i = Some text → click env s (gen_quiz i) = (s, []).
Proof.
  intros H.
  assert (∀ n, generate_quiz env text n = ((None, Some msg_no_text), [])) as G.
  { intros m. unfold generate_quiz. cbn [truthy].
    rewrite strip_whitespace by done.
    by rewrite orb_true_r. }
  split; [apply G|].
  intros s i Hi. unfold click.
  destruct (rendered s (gen_quiz i)); [|done].
  cbn [on_click]. rewrite Hi. unfold on_gen_quiz. by rewrite G.
Qed.

Lemma blank_text_is_rejected_witness :
  generate_quiz Sample.env (py "  ") 3 = ((None, Some msg_no_text), []) ∧
  ∀ s i, paragraphs s !! i = Some (py "  ") →
         click Sample.env s (gen_quiz i) = (s, []).
Proof.
  apply (blank_text_is_rejected Sample.env (py "  ") 3).
  repeat constructor.
Defined.

(** With text and a key, one request is sent, and the sample reply comes
    back as a quiz of two questions. *)
Example sample_generation :
  ∃ qs, generate_quiz Sample.env (py "Some study text.") 2
        = ((Some (JArr qs), None),
           [request_for Sample.env (py "Some study text.") 2]) ∧
        length qs = 2%nat.
Proof. eexists. split; reflexivity. Qed.

End BackendFacts.

(** ** The buttons *)

Module SessionFacts.








(** With one of two questions answered the button is disabled, and a press
    changes nothing. *)
Example submit_blocked_when_incomplete :
  let s := set_show_results false
             (set_user_answers (<[0%nat := Some (py "b) X")]> (<[1%nat := None]> ∅))
                Sample.in_results) in
  answered s = 1%nat ∧ disabled s submit_btn = true ∧
  press Sample.env s s submit_btn = (s, []).
Proof. split_and!; reflexivity. Qed.

(** C4, as amended. Both home buttons of the quiz page go to the main page
    and clear the results flag; neither clears the quiz; the one of the
    results view also clears the ready flag, the one beside the questions
    leaves it; paragraphs, history, answers and preferences stay as they
    were. *)
Theorem home_from_quiz env (s : SessionState) :
  let via_sidebar := (on_click env s quiz_home_sidebar).1 in
  let via_results := (on_click env s results_home).1 in
  (page via_sidebar = PageMain ∧ show_results via_sidebar = false ∧
   quiz via_sidebar = quiz s ∧ quiz_ready via_sidebar = quiz_ready s ∧
   same_content s via_sidebar) ∧
  (page via_results = PageMain ∧ show_results via_results = false ∧
   quiz via_results = quiz s ∧ quiz_ready via_results = false ∧
   same_content s via_results) ∧
  click env s quiz_home_sidebar =
    (if rendered s quiz_home_sidebar then on_click env s quiz_home_sidebar
     else (s, [])) ∧
  click env s results_home =
    (if rendered s results_home then on_click env s results_home
     else (s, [])).
Proof.
  cbn. unfold same_content, click. done.
Qed.

(** C4, counterexample. In the results view of the sample quiz the
    results-home button is drawn, and after a click on it the session still
    holds the two questions. *)
Lemma results_home_keeps_quiz :
  rendered Sample.in_results results_home = true ∧
  quiz (click Sample.env Sample.in_results results_home).1
    = [Sample.q1; Sample.q2] ∧
  quiz (click Sample.env Sample.in_results results_home).1 ≠ [].
Proof. split_and!; [reflexivity | reflexivity | discriminate]. Qed.

(** The body under [results_home] does not touch the history, but the run
    that handles the click draws the results once more before it: when the
    minute has changed since the result was recorded, it is recorded
    again. *)
Example results_home_run_records_again :
  let now := fun _ : nat => py "2025-03-01 10:17" in
  ∃ s' t', results_run Sample.env now 0 results_home Sample.in_results
             = Ok (s', t') ∧
           page s' = PageMain ∧ length (quiz_history s') = 2%nat.
Proof. eexists _, _. split_and!; reflexivity. Qed.

(** C9. The body of the clear-all button leaves no paragraph, no quiz and
    the ready flag false, whatever the state; after it the sidebar offers
    no way to the quiz, no paragraph offers to generate one and the quiz
    page has nothing to submit. *)
Theorem clear_all_leaves_no_quiz env (s : SessionState) :
  let s' := (on_click env s clear_all).1 in
  paragraphs s' = [] ∧ quiz s' = [] ∧ quiz_ready s' = false ∧
  rendered s' nav_quiz = false ∧
  (∀ i, rendered s' (gen_quiz i) = false) ∧
  rendered s' submit_btn = false ∧
  click env s clear_all =
    (if rendered s clear_all then on_click env s clear_all else (s, [])).
Proof.
  cbn. split_and!; try done.
  - intros i. rewrite bool_decide_eq_false_2 by lia. apply andb_false_r.
  - apply andb_false_r.
Qed.

End SessionFacts.

(** ** Grading *)

Module GradingFacts.

Lemma py_eq_string u a : py_eq u (JStr a) = bool_decide (u = Some a).
Proof.
  destruct u as [u|]; simpl; [|done].
  apply bool_decide_ext. split; congruence.
Qed.

(** The marking loop, entered after the questions whose answers are [done],
    adds one point per remaining index whose entry is the answer string. *)
Lemma mark_counts quiz answers ua done sc :
  Forall2 answer_string quiz answers →
  mark (length done) quiz ua sc =
    Ok (sc + length (filter (fun i => correct_at (done ++ answers) ua i = true)
                       (seq (length done) (length answers)))).
Proof.
  intros H. revert done sc.
  induction H as [|q a quiz answers [Ha [t Ht]] _ IH]; intros done sc.
  - simpl. f_equal. lia.
  - cbn [mark]. rewrite Ha, Ht. cbn [mbind result_bind].
    specialize (IH (done ++ [a])).
    rewrite length_app in IH. cbn [length] in IH.
    replace (length done + 1) with (S (length done)) in IH by lia.
    rewrite IH. rewrite <- app_assoc. cbn [app length seq].
    assert (correct_at (done ++ a :: answers) ua (length done)
            = py_eq (get ua (length done)) (JStr a)) as E0.
    { unfold correct_at.
      rewrite (list_lookup_middle done answers a (length done)) by done.
      by rewrite py_eq_string. }
    rewrite filter_cons. f_equal.
    case_decide as E'; rewrite E0 in E'; cbn [length].
    + rewrite E'. lia.
    + apply not_true_is_false in E'. rewrite E'. lia.
Qed.

Lemma message_bands (percentage : float) :
  (message_of percentage = py "Excellent work!"
     ↔ (80 <=? percentage)%float = true) ∧
  (message_of percentage = py "Good job!"
     ↔ (60 <=? percentage)%float = true ∧ (80 <=? percentage)%float = false) ∧
  (message_of percentage = py "Keep studying!"
     ↔ (80 <=? percentage)%float = false ∧ (60 <=? percentage)%float = false).
Proof.
  unfold message_of.
  destruct (80 <=? percentage)%float, (60 <=? percentage)%float;
    split_and!; split; try done; by intros [? ?].
Qed.

Lemma correct_count_le answers ua : correct_count answers ua ≤ length answers.
Proof.
  unfold correct_count. etrans; [apply length_filter|]. by rewrite length_seq.
Qed.

Lemma bands_agree_upto_200 : bands_agree_upto 200 = true.
Proof. vm_compute. reflexivity. Qed.

(** For quizzes of up to 200 questions the percentage is computed without
    error, lies between 0 and 100, and its band is the band of the exact
    quotient. *)
Lemma float_bands_agree (score total : nat) :
  1 ≤ total ≤ 200 → score ≤ total →
  ∃ p, percentage_of score total = Ok p ∧
    message_of p = exact_band score total ∧
    (p <? 80)%float = negb (80 <=? p)%float ∧
    (p <? 60)%float = negb (60 <=? p)%float ∧
    (0 <=? p)%float = true ∧ (p <=? 100)%float = true.
Proof.
  intros Ht Hs. pose proof bands_agree_upto_200 as H.
  unfold bands_agree_upto in H.
  rewrite forallb_forall in H.
  specialize (H total). rewrite forallb_forall in H.
  assert (In total (seq 1 200)) as Hin1 by (apply in_seq; lia).
  assert (In score (seq 0 (S total))) as Hin2 by (apply in_seq; lia).
  specialize (H Hin1 score Hin2).
  destruct (percentage_of score total) as [p|]; [|done].
  exists p. split; [done|]. unfold band_checks in H.
  repeat (apply andb_true_iff in H as [H ?]).
  repeat match goal with
         | H : Bool.eqb _ _ = true |- _ => apply Bool.eqb_prop in H
         end.
  split_and!; try done.
  unfold message_of, exact_band.
  by repeat match goal with H : _ = (_ <=? _)%Z |- _ => rewrite <- H; clear H end.
Qed.

(** C2, as amended. For a quiz with at least one question (and fewer than
    2^53, so that the counts are converted to binary64 exactly), whose
    questions have the answer strings [answers], the results view gives a
    card:
    question [i] counts as correct exactly when the stored entry for [i] is
    that very string; the score is the number of such indices, the total
    the length of the quiz, the percentage the binary64 number that
    dividing the score by the total and multiplying by 100 gives; the
    message is "Excellent work!" exactly when that number is at least 80,
    "Good job!" exactly when it is at least 60 and not at least 80, "Keep
    studying!" otherwise. For up to 200 questions the message is the one of
    the exact quotient, and the percentage lies between 0 and 100. For the
    answers "b) X", "a) Y" and the entries 0: "b) X", 1: "b) Y" the score is
    1, the percentage 50.0 and the message "Keep studying!". *)
Theorem grading_counts_exact_matches
    (quiz : list JSON) (answers : list pystr) (ua : gmap nat (option pystr)) :
  quiz ≠ [] → (Z.of_nat (length quiz) < 2 ^ 53)%Z →
  Forall2 answer_string quiz answers →
  ∃ card, grade quiz ua = Ok card ∧
    (∀ i a, answers !! i = Some a →
       (correct_at answers ua i = true ↔ get ua i = Some a)) ∧
    card_score card = correct_count answers ua ∧
    card_total card = length quiz ∧
    card_percentage card
      = (float_of_nat (card_score card) / float_of_nat (card_total card)
         * 100)%float ∧
    (card_message card = py "Excellent work!"
       ↔ (80 <=? card_percentage card)%float = true) ∧
    (card_message card = py "Good job!"
       ↔ (60 <=? card_percentage card)%float = true ∧
         (80 <=? card_percentage card)%float = false) ∧
    (card_message card = py "Keep studying!"
       ↔ (80 <=? card_percentage card)%float = false ∧
         (60 <=? card_percentage card)%float = false) ∧
    (length quiz ≤ 200 →
       card_message card = exact_band (card_score card) (card_total card) ∧
       (card_percentage card <? 80)%float
         = negb (80 <=? card_percentage card)%float ∧
       (card_percentage card <? 60)%float
         = negb (60 <=? card_percentage card)%float ∧
       (0 <=? card_percentage card)%float = true ∧
       (card_percentage card <=? 100)%float = true) ∧
    (∃ sample, grade [Sample.q1; Sample.q2]
                 (<[0%nat := Some (py "b) X")]> (<[1%nat := Some (py "b) Y")]> ∅))
               = Ok sample ∧
       card_score sample = 1%nat ∧ card_percentage sample = 50%float ∧
       card_message sample = py "Keep studying!").
Proof.
  intros Hne _ H.
  pose proof (mark_counts quiz answers ua [] 0 H) as Hm.
  cbn [length app] in Hm.
  pose proof (Forall2_length _ _ _ H) as Hlen.
  pose proof (correct_count_le answers ua) as Hle.
  unfold grade. rewrite Hm. cbn [mbind result_bind].
  change (0 + length (filter (fun i => correct_at answers ua i = true)
                        (seq 0 (length answers))))
    with (correct_count answers ua).
  destruct (length quiz) as [|n] eqn:En; [by destruct quiz|].
  cbn [percentage_of mbind result_bind].
  eexists. split; [reflexivity|]. cbn [card_score card_total card_percentage
                                       card_message].
  destruct (message_bands (float_of_nat (correct_count answers ua)
                           / float_of_nat (S n) * 100)%float)
    as (B1 & B2 & B3).
  split_and!; try done.
  - intros i a Hi. unfold correct_at. rewrite Hi. apply bool_decide_eq_true.
  - intros H200.
    destruct (float_bands_agree (correct_count answers ua) (S n))
      as (p & Ep & Hp); [lia|lia|].
    cbn [percentage_of] in Ep. injection Ep as <-. exact Hp.
  - eexists. split; [reflexivity|]. split_and!; reflexivity.
Qed.

Lemma grading_counts_exact_matches_witness :
  ∃ card, grade [Sample.q1; Sample.q2] (user_answers Sample.in_results) = Ok card ∧
    card_score card
      = correct_count [py "b) X"; py "a) Y"] (user_answers Sample.in_results) ∧
    card_total card = 2%nat ∧
    card_percentage card
      = (float_of_nat (card_score card) / float_of_nat (card_total card)
         * 100)%float ∧
    card_message card = exact_band (card_score card) (card_total card).
Proof.
  destruct (grading_counts_exact_matches [Sample.q1; Sample.q2]
              [py "b) X"; py "a) Y"] (user_answers Sample.in_results))
    as (card & E & _ & Hs & Ht & Hp & _ & _ & _ & H200 & _).
  - discriminate.
  - simpl. lia.
  - repeat constructor; by eexists.
  - exists card. split_and!; try done. apply H200. simpl. lia.
Defined.

(** C2, counterexample. One answer right out of three: the percentage of
    the card is smaller than the binary64 value of 100 * 1 / 3, the two
    roundings of line 592 having lost the last place. *)
Lemma percentage_is_rounded_twice :
  ∃ card, grade [Sample.q1; Sample.q2; Sample.q2] {[0%nat := Some (py "b) X")]}
            = Ok card ∧
    card_score card = 1%nat ∧ card_total card = 3%nat ∧
    card_percentage card = (1 / 3 * 100)%float ∧
    (card_percentage card <? 100 * 1 / 3)%float = true ∧
    card_percentage card ≠ (100 * 1 / 3)%float.
Proof.
  exists {| card_message := py "Keep studying!"; card_score := 1;
            card_total := 3;
            card_percentage := (float_of_nat 1 / float_of_nat 3 * 100)%float |}.
  split; [vm_compute; reflexivity|].
  cbn [card_score card_total card_percentage].
  split_and!; try reflexivity.
  intros E.
  assert ((float_of_nat 1 / float_of_nat 3 * 100 <? 100 * 1 / 3)%float = true)
    as Hlt by reflexivity.
  rewrite E in Hlt. vm_compute in Hlt. discriminate.
Qed.

(** The comparison is exact and sensitive to case: an entry that differs
    from the answer in one letter's case scores nothing. *)
Example case_matters :
  card_score <$> (match grade [Sample.q1] {[0%nat := Some (py "b) x")]} with
                  | Ok card => Some card
                  | Raise _ => None
                  end) = Some 0%nat.
Proof. reflexivity. Qed.

(** Without a question there is nothing to divide by. *)
Example empty_quiz_divides_by_zero :
  grade [] ∅ = Raise (Builtin ZeroDivisionError).
Proof. reflexivity. Qed.

End GradingFacts.

(** ** The history ledger *)

Module LedgerFacts.

(** What the scan of line 614 finds, and how many readings it takes. *)
Lemma any_same_minute_spec now t h :
  match any_same_minute now t h with
  | (true, t') => t ≤ t' ≤ t + length h ∧
      ∃ i r, h !! i = Some r ∧ date r = now (t + i)
  | (false, t') => t' = t + length h ∧
      ∀ i r, h !! i = Some r → date r ≠ now (t + i)
  end.
Proof.
  revert t. induction h as [|r h IH]; intros t; cbn [any_same_minute].
  - split; [simpl; lia|]. intros i r. by rewrite lookup_nil.
  - case_bool_decide as E.
    + split; [simpl; lia|]. exists 0, r. split; [done|]. by rewrite Nat.add_0_r.
    + specialize (IH (S t)).
      destruct (any_same_minute now (S t) h) as [[|] t'].
      * destruct IH as [Ht (i & r' & Hi & Hr)]. split; [simpl; lia|].
        exists (S i), r'. split; [done|]. by rewrite Nat.add_succ_r.
      * destruct IH as [-> IH]. split; [simpl; lia|].
        intros [|i] r' Hi; simplify_eq/=.
        -- by rewrite Nat.add_0_r.
        -- rewrite Nat.add_succ_r. by apply IH.
Qed.

Lemma record_within_minute now t m percentage score total h :
  within_minute now t m →
  t ≤ (record now t percentage score total h).2 ∧
  (Forall (fun r => date r ≠ m) h →
     (record now t percentage score total h).1
       = h ++ [{| date := m; Session.score := percentage;
                  correct := score; Session.total := total |}]) ∧
  (Exists (fun r => date r = m) h →
     (record now t percentage score total h).1 = h).
Proof.
  intros Hm. unfold record.
  pose proof (any_same_minute_spec now t h) as Hs.
  destruct (any_same_minute now t h) as [[|] t1]; cbn [fst snd].
  - destruct Hs as [Ht (i & r & Hi & Hr)]. split_and!; [lia| |done].
    intros Hall. rewrite Forall_lookup in Hall.
    destruct (Hall _ _ Hi). rewrite Hr. apply Hm. lia.
  - destruct Hs as [-> Hs]. split_and!; [lia| |].
    + intros _. by rewrite (Hm (t + length h)) by lia.
    + intros Hex. apply Exists_exists in Hex as (r & Hr & Hd).
      apply list_elem_of_lookup in Hr as [i Hi].
      destruct (Hs _ _ Hi). rewrite Hd. symmetry. apply Hm. lia.
Qed.

(** Every ledger of a run has distinct dates, each a past reading. *)
Lemma ledger_run_invariant now h t :
  never_returns now → ledger_run now h t →
  NoDup (date <$> h) ∧ ∀ r, r ∈ h → ∃ k, k < t ∧ date r = now k.
Proof.
  intros Hclock. induction 1 as [|h t p c n _ [IHd IHp]|h t _ _].
  - split; [constructor|]. intros r Hr. by apply not_elem_of_nil in Hr.
  - unfold record.
    pose proof (any_same_minute_spec now t h) as Hs.
    destruct (any_same_minute now t h) as [[|] t1]; cbn [fst snd].
    + destruct Hs as [Ht _]. split; [done|].
      intros r Hr. destruct (IHp r Hr) as (k & Hk & E). exists k. split; [lia|done].
    + destruct Hs as [-> Hs]. split.
      * rewrite fmap_app. cbn [fmap list_fmap].
        apply NoDup_app. split_and!; [done| |apply NoDup_singleton].
        intros d Hd Hd'. apply list_elem_of_singleton in Hd'. subst d.
        apply list_elem_of_fmap in Hd as (r & Hr & Hin).
        destruct (IHp r Hin) as (k & Hk & E).
        apply list_elem_of_lookup in Hin as [i Hi].
        apply (Hs i r Hi).
        pose proof (lookup_lt_Some _ _ _ Hi) as Hlt.
        rewrite E. symmetry.
        apply (Hclock k (t + i) (t + length h)); [lia|lia|].
        by rewrite <- E, <- Hr.
      * intros r Hr. apply elem_of_app in Hr as [Hr|Hr].
        -- destruct (IHp r Hr) as (k & Hk & E). exists k. split; [lia|done].
        -- apply list_elem_of_singleton in Hr as ->. cbn [date].
           exists (t + length h). split; [lia|done].
  - split; [constructor|]. intros r Hr. by apply not_elem_of_nil in Hr.
Qed.

(** C7, as amended. While the clock stays within one minute, the record operation
    appends a record dated with that minute when no record of the ledger
    has that date and leaves the ledger alone when one has; recording a
    second time within the minute adds nothing, so the two calls append at
    most one entry. Over any run of record and clear operations, under a
    clock that never returns to a minute it has left, no two records of the
    ledger have the same date. *)
Theorem one_record_per_minute (now : nat -> pystr) :
  (∀ t m p c n p' c' n' h,
     within_minute now t m →
     let first := record now t p c n h in
     let second := record now first.2 p' c' n' first.1 in
     (Forall (fun r => date r ≠ m) h →
        first.1 = h ++ [{| date := m; score := p; correct := c; total := n |}]) ∧
     (Exists (fun r => date r = m) h → first.1 = h) ∧
     second.1 = first.1 ∧
     length second.1 ≤ S (length h)) ∧
  (never_returns now → ∀ h t, ledger_run now h t → NoDup (date <$> h)).
Proof.
  split.
  - intros t m p c n p' c' n' h Hm first second.
    destruct (record_within_minute now t m p c n h Hm) as (Ht & Hnew & Hold).
    fold first in Ht, Hnew, Hold.
    assert (within_minute now first.2 m) as Hm'.
    { intros k Hk. apply Hm. lia. }
    destruct (record_within_minute now first.2 m p' c' n' first.1 Hm')
      as (_ & _ & Hold').
    fold second in Hold'.
    assert (Exists (fun r => date r = m) first.1) as Hex.
    { destruct (decide (Exists (fun r => date r = m) h)) as [E|E].
      - by rewrite Hold.
      - apply not_Exists_Forall in E; [|apply _].
        rewrite (Hnew E). apply Exists_app. right. by constructor. }
    split_and!; [done | done | by apply Hold' |].
    rewrite (Hold' Hex).
    destruct (decide (Exists (fun r => date r = m) h)) as [E|E].
    + rewrite (Hold E). lia.
    + apply not_Exists_Forall in E; [|apply _].
      rewrite (Hnew E), length_app. simpl. lia.
  - intros Hclock h t Hrun. by apply (ledger_run_invariant now h t).
Qed.

Lemma one_record_per_minute_witness :
  let now := fun _ : nat => py "2025-03-01 10:15" in
  let first := record now 0 50 1 2 [] in
  let second := record now first.2 50 1 2 first.1 in
  first.1 = [{| date := py "2025-03-01 10:15"; score := 50;
                correct := 1; total := 2 |}] ∧
  second.1 = first.1 ∧
  NoDup (date <$> second.1).
Proof.
  intros now first second.
  destruct (one_record_per_minute now) as [Hminute Hrun].
  destruct (Hminute 0 (py "2025-03-01 10:15") 50%float 1 2 50%float 1 2 [])
    as (Hnew & _ & Hsame & _).
  { intros k _. reflexivity. }
  split_and!.
  - apply Hnew. constructor.
  - exact Hsame.
  - apply (Hrun (fun i j k _ _ _ => eq_refl) second.1 second.2).
    apply run_record, run_record, run_start.
Defined.

(** C7, counterexample. The scan of line 614 reads the clock once for
    every record it looks at, and line 616 reads it again for the record it
    appends. With a record of 10:15 in the ledger, a clock that shows 10:16
    during the scan and 10:15 again for the append leaves two records with
    the same date. *)
Lemma clock_stepping_back_repeats_a_date :
  let now := fun k : nat => match k with
                            | 1 => py "2025-03-01 10:16"
                            | _ => py "2025-03-01 10:15"
                            end in
  let first := record now 0 50 1 2 [] in
  let second := record now first.2 100 2 2 first.1 in
  ledger_run now second.1 second.2 ∧
  date <$> second.1 = [py "2025-03-01 10:15"; py "2025-03-01 10:15"] ∧
  ¬ NoDup (date <$> second.1).
Proof.
  intros now first second. split_and!.
  - apply run_record, run_record, run_start.
  - reflexivity.
  - change (date <$> second.1)
      with [py "2025-03-01 10:15"; py "2025-03-01 10:15"].
    intros H. apply NoDup_cons in H as [H _]. apply H, list_elem_of_here.
Qed.

(** A clock that moves on between two results views lets both be recorded. *)
Example two_minutes_two_records :
  let now := fun k : nat => if bool_decide (k < 1) then py "2025-03-01 10:15"
                            else py "2025-03-01 10:16" in
  length (record now (record now 0 50 1 2 []).2 100 2 2
            (record now 0 50 1 2 []).1).1 = 2%nat.
Proof. reflexivity. Qed.

End LedgerFacts.

(** ** More on the cleaning of the reply *)

Module ReplyFacts.
Import Clean StrFacts ReFacts CleanFacts.

Lemma lstrip_cases s :
  lstrip s = [] ∨ ∃ c r, lstrip s = c :: r ∧ isspace c = false.
Proof.
  induction s as [|c s IH]; [by left|]. cbn [lstrip].
  destruct (isspace c) eqn:E; [done|]. right. by exists c, s.
Qed.

Lemma rstrip_idempotent s : rstrip (rstrip s) = rstrip s.
Proof.
  induction s as [|c s IH]; [done|]. cbn [rstrip].
  destruct (rstrip s) as [|x r] eqn:E.
  - destruct (isspace c) eqn:Hc; [done|]. cbn. by rewrite Hc.
  - cbn [rstrip]. cbn [rstrip] in IH. by rewrite IH.
Qed.

Lemma rstrip_keeps_head c r :
  isspace c = false → ∃ r', rstrip (c :: r) = c :: r'.
Proof.
  intros Hc. cbn [rstrip]. destruct (rstrip r); rewrite ?Hc; eauto.
Qed.

Lemma rstrip_last_nonspace s r c : rstrip s = r ++ [c] → isspace c = false.
Proof.
  revert r. induction s as [|x s IH]; intros r; cbn [rstrip].
  - by destruct r.
  - destruct (rstrip s) as [|y t] eqn:E.
    + destruct (isspace x) eqn:Hx; [by destruct r|].
      destruct r as [|? [|? ?]]; [|done..]. by intros [= <-].
    + destruct r as [|z r]; [done|]. intros [= <- Hr]. by apply (IH r).
Qed.

Lemma strip_idempotent s : strip (strip s) = strip s.
Proof.
  unfold strip. destruct (lstrip_cases s) as [->|(c & r & -> & Hc)]; [done|].
  destruct (rstrip_keeps_head c r Hc) as [r' E].
  rewrite E, lstrip_head by done. rewrite <- E. apply rstrip_idempotent.
Qed.

Lemma strip_ends s :
  (∀ c r, strip s = c :: r → isspace c = false) ∧
  (∀ r c, strip s = r ++ [c] → isspace c = false).
Proof.
  split.
  - intros c r. unfold strip.
    destruct (lstrip_cases s) as [->|(c' & r' & -> & Hc)]; [done|].
    destruct (rstrip_keeps_head c' r' Hc) as [r'' ->]. by intros [= <- _].
  - intros r c. apply rstrip_last_nonspace.
Qed.

Lemma strip_nil_iff s : strip s = [] ↔ whitespace s.
Proof.
  split; [|apply strip_whitespace].
  intros H. destruct (lstrip_suffix s) as (w & E & Hw).
  rewrite E. apply Forall_app. split; [done|]. by apply rstrip_nil.
Qed.

(** X5. Whatever the reply, the text handed to the decoder has no
    whitespace left at either end: it neither starts nor ends with a
    whitespace character, and stripping it again changes nothing. *)
Theorem clean_is_stripped (content : pystr) :
  strip (clean content) = clean content ∧
  (∀ c r, clean content = c :: r → isspace c = false) ∧
  (∀ r c, clean content = r ++ [c] → isspace c = false).
Proof.
  unfold clean. split; [apply strip_idempotent | apply strip_ends].
Qed.

(** X6. A reply without a backtick has no fence: cleaning it only strips
    the whitespace around it, and it comes out empty exactly when the reply
    is blank. *)
Theorem clean_without_backtick (content : pystr) :
  backtick ∉ content →
  clean content = strip content ∧
  (clean content = [] ↔ whitespace content).
Proof.
  intros H. rewrite clean_no_backtick by done. split; [done|].
  apply strip_nil_iff.
Qed.

Lemma clean_without_backtick_witness :
  clean (py "  {} ") = strip (py "  {} ").
Proof.
  apply (clean_without_backtick (py "  {} ")).
  intros H. by repeat (apply elem_of_cons in H as [H|H]; [done|]);
    apply elem_of_nil in H.
Defined.

Lemma from_first_split c s x r :
  from_first c s = x :: r →
  ∃ pre, s = pre ++ c :: r ∧ x = c ∧ c ∉ pre.
Proof.
  induction s as [|y s IH]; [done|]. cbn [from_first].
  destruct (y =? c)%N eqn:E.
  - apply N.eqb_eq in E as ->. intros [= <- <-]. exists [].
    split; [done|]. split; [done|]. apply not_elem_of_nil.
  - apply N.eqb_neq in E. intros H.
    destruct (IH H) as (pre & -> & -> & Hpre).
    exists (y :: pre). split; [done|]. split; [done|].
    intros [->|?]%elem_of_cons; done.
Qed.

Lemma upto_last_app c front post :
  c ∉ post → upto_last c (front ++ c :: post) = front ++ [c].
Proof.
  intros H. unfold upto_last.
  replace (front ++ c :: post) with ((front ++ [c]) ++ post)
    by (by rewrite <- app_assoc).
  rewrite rev_app_distr, rev_app_distr. cbn [rev app].
  rewrite from_first_app by (by rewrite elem_of_rev_iff).
  change (c :: rev front) with ([c] ++ rev front).
  by rewrite rev_app_distr, rev_involutive.
Qed.

Lemma upto_last_split c s x r :
  upto_last c s = x :: r →
  ∃ front post, s = front ++ c :: post ∧ x :: r = front ++ [c] ∧ c ∉ post.
Proof.
  unfold upto_last. intros H.
  destruct (from_first c (rev s)) as [|y t] eqn:E; [done|].
  apply from_first_split in E as (pre & Es & -> & Hpre).
  exists (rev t), (rev pre). split_and!.
  - rewrite <- (rev_involutive s), Es, rev_app_distr. cbn [rev].
    by rewrite <- app_assoc.
  - rewrite <- H. done.
  - by rewrite elem_of_rev_iff.
Qed.

Lemma brace_span_intro pre body post :
  lbrace ∉ pre → rbrace ∉ post →
  Re.search brace_span (pre ++ [lbrace] ++ body ++ [rbrace] ++ post)
    = Some ([lbrace] ++ body ++ [rbrace]).
Proof.
  intros Hpre Hpost. rewrite search_brace_span_agrees. unfold search_braces.
  cbn [app]. rewrite from_first_app by done.
  pose proof (upto_last_app rbrace (lbrace :: body) post Hpost) as H.
  cbn [app] in H. by rewrite H.
Qed.

(** X7. The brace span found in a text is its part from the first opening
    brace to the last closing brace after it, and there is one exactly when
    an opening brace is followed, somewhere, by a closing one. *)
Theorem brace_span_found (text span : pystr) :
  Re.search brace_span text = Some span ↔
  (∃ pre body post,
    text = pre ++ [lbrace] ++ body ++ [rbrace] ++ post ∧
    span = [lbrace] ++ body ++ [rbrace] ∧
    (lbrace ∉ pre) ∧ (rbrace ∉ post)).
Proof.
  split.
  - rewrite search_brace_span_agrees. unfold search_braces.
    destruct (from_first lbrace text) as [|x r] eqn:E1; [done|].
    apply from_first_split in E1 as (pre & -> & -> & Hpre).
    destruct (upto_last rbrace (lbrace :: r)) as [|y t] eqn:E2; [done|].
    intros [= <-].
    apply upto_last_split in E2 as (front & post & Er & Espan & Hpost).
    destruct front as [|z body].
    { cbn in Espan. by injection Espan. }
    cbn [app] in Er, Espan. injection Er as <- ->. injection Espan as -> ->.
    exists pre, body, post. done.
  - intros (pre & body & post & -> & -> & Hpre & Hpost).
    by apply brace_span_intro.
Qed.

(** X8. A reply that is not JSON as a whole but holds one object, with no
    opening brace before it and no closing brace after it, is decoded from
    that object. *)
Theorem object_in_prose env (text pre body post : pystr) (v : JSON) :
  text = pre ++ [lbrace] ++ body ++ [rbrace] ++ post →
  lbrace ∉ pre → rbrace ∉ post →
  json_loads env text = JSONDecodeError →
  json_loads env ([lbrace] ++ body ++ [rbrace]) = Decoded v →
  parse env text = Ok (Some v).
Proof.
  intros Et Hpre Hpost Hwhole Hobj. unfold parse. rewrite Hwhole.
  subst text. rewrite brace_span_intro by done.
  by rewrite Hobj.
Qed.

Lemma object_in_prose_witness :
  parse Sample.env (py "Here you go: " ++ Sample.payload ++ py " Enjoy!")
    = Ok (Some Sample.decoded).
Proof.
  refine (object_in_prose Sample.env _ (py "Here you go: ")
            (removelast (tail Sample.payload)) (py " Enjoy!")
            Sample.decoded _ _ _ _ _).
  - by vm_compute.
  - intros H. by vm_compute in H; repeat (apply elem_of_cons in H as [H|H];
      [done|]); apply elem_of_nil in H.
  - intros H. by vm_compute in H; repeat (apply elem_of_cons in H as [H|H];
      [done|]); apply elem_of_nil in H.
  - by vm_compute.
  - by vm_compute.
Defined.

End ReplyFacts.

(** ** The request and what comes of it *)

Module RequestFacts.
Import Clean ShuffleFacts StrFacts ReFacts CleanFacts BackendFacts ReplyFacts.

(** The guard of lines 33-34 fires on the empty and the all-whitespace
    texts, and on no other. *)
Lemma blank_guard text :
  negb (truthy (JStr text)) || negb (truthy (JStr (strip text))) = true
  ↔ whitespace text.
Proof.
  cbn [truthy]. rewrite !negb_involutive, orb_true_iff, !bool_decide_eq_true.
  rewrite strip_nil_iff. split; [|by right].
  intros [-> | H]; [constructor | done].
Qed.

Lemma blank_guard_false text :
  ¬ whitespace text →
  negb (truthy (JStr text)) || negb (truthy (JStr (strip text))) = false.
Proof.
  intros H. apply not_true_is_false. by rewrite blank_guard.
Qed.

Lemma key_guard key : negb (truthy (JStr key)) = true ↔ key = [].
Proof. cbn [truthy]. by rewrite negb_involutive, bool_decide_eq_true. Qed.

Lemma generate_quiz_calls env text n :
  ¬ whitespace text → API_KEY env ≠ [] →
  generate_quiz env text n =
    (handle env (attempt env (request_for env text n)),
     [request_for env text n]).
Proof.
  intros Ht Hk. unfold generate_quiz. rewrite blank_guard_false by done.
  destruct (negb (truthy (JStr (API_KEY env)))) eqn:E; [|done].
  by apply key_guard in E.
Qed.

(** X1. [generate_quiz] sends at most one request, the one built from its
    arguments; it sends none exactly when the text is blank or the API key
    is empty, and with text but no key it returns the message asking for a
    key. *)
Theorem request_sent_iff env (text : pystr) (n : nat) :
  let sent := (generate_quiz env text n).2 in
  (sent = [] ↔ whitespace text ∨ API_KEY env = []) ∧
  (sent = [] ∨ sent = [request_for env text n]) ∧
  (¬ whitespace text ∧ API_KEY env = [] →
     (generate_quiz env text n).1 = (None, Some msg_no_key)).
Proof.
  cbn zeta. unfold generate_quiz.
  destruct (negb (truthy (JStr text)) || _) eqn:E1.
  { apply blank_guard in E1. cbn [fst snd]. repeat split; auto.
    by intros [? _]. }
  assert (¬ whitespace text) as Ht.
  { intros H. apply blank_guard in H. congruence. }
  destruct (negb (truthy (JStr (API_KEY env)))) eqn:E2.
  { apply key_guard in E2. cbn [fst snd]. repeat split; auto. }
  assert (API_KEY env ≠ []) as Hk.
  { intros H. apply key_guard in H. congruence. }
  cbn [fst snd]. repeat split; auto.
  - done.
  - by intros [?|?].
  - by intros [_ ?].
Qed.

(** X2. With text and a key, a call that fails before a 200 reply ends in
    the message of its cause: a time-out, a network error with the text of
    the exception, or the status code (401, 429, any other). The body of
    such a reply is not read. *)
Theorem failed_call_messages env (text : pystr) (n : nat) :
  ¬ whitespace text → API_KEY env ≠ [] →
  let returned := (generate_quiz env text n).1 in
  let reply := post env (request_for env text n) in
  (∀ m, reply = Raise (Timeout m) → returned = (None, Some msg_timeout)) ∧
  (∀ m, reply = Raise (RequestException m) →
        returned = (None, Some (py "Network error: " ++ m))) ∧
  (∀ r, reply = Ok r → status_code r ≠ 200 →
        returned = (None, Some (status_message (status_code r)))) ∧
  status_message 401 = msg_invalid_key ∧
  status_message 429 = msg_rate_limit ∧
  status_message 500 = py "API Error 500".
Proof.
  intros Ht Hk. cbn zeta. rewrite generate_quiz_calls by done. cbn [fst].
  unfold attempt. repeat split.
  - by intros m ->.
  - by intros m ->.
  - intros r -> Hr. cbn [mbind result_bind]. unfold status_message.
    rewrite bool_decide_eq_true_2 by done.
    by repeat case_bool_decide.
Qed.

Lemma in_text_not_whitespace : ¬ whitespace (py "Some study text.").
Proof. intros H. by apply strip_whitespace in H. Qed.

Lemma failed_call_messages_witness :
  (generate_quiz (env_refusing 429) (py "Some study text.") 5).1
    = (None, Some msg_rate_limit).
Proof.
  refine (proj1 (proj2 (proj2
    (failed_call_messages (env_refusing 429) (py "Some study text.") 5
       in_text_not_whitespace _))) _ eq_refl _); done.
Defined.

Lemma shuffle_options_questions env qs k :
  Forall (fun q => ∃ a opts, question_with q a opts) qs →
  ∃ qs', shuffle_options env qs k = Ok (Next qs') ∧
    Forall2 (fun q q' => ∃ a opts opts',
      question_with q a opts ∧ question_with q' a opts' ∧ opts' ≡ₚ opts)
      qs qs'.
Proof.
  intros H. revert k. induction H as [|q rest (a & opts & Hq) _ IH]; intros k.
  { exists []. split; [done|constructor]. }
  rewrite (shuffle_options_cons env q a opts rest k Hq).
  destruct (IH (shuffle (draws env) opts k).2) as (rest' & -> & HF).
  cbn [mbind result_bind]. eexists. split; [done|].
  constructor; [|done].
  exists a, opts, (shuffle (draws env) opts k).1.
  split; [done|]. split; [by apply shuffled_question_with|].
  apply shuffle_Permutation.
Qed.

Lemma read_reply_carries env body content :
  carries body content → read_reply env body = respond env content.
Proof.
  intros (choices & choice & message & E1 & E2 & E3 & E4).
  unfold read_reply. rewrite E1. cbn [mbind result_bind].
  rewrite E2. cbn [mbind result_bind]. rewrite E3. cbn [mbind result_bind].
  by rewrite E4.
Qed.

(** X3. A reply of the requested shape comes back as a quiz. With text and
    a key, if the API answers 200 with a body whose first choice carries a
    text that, cleaned, decodes to an object whose [quiz] is a non-empty
    list of questions with the three keys and a list of options, then
    [generate_quiz] returns, after one request and with no error, the
    questions in their order, each with its answer and a permutation of its
    options. *)
Theorem well_formed_reply_gives_quiz env (text : pystr) (n : nat)
    (r : Response) (body : JSON) (content : pystr)
    (d : list (pystr * JSON)) (qs : list JSON) :
  ¬ whitespace text → API_KEY env ≠ [] →
  post env (request_for env text n) = Ok r →
  status_code r = 200 → json r = Ok body → carries body content →
  parse env (clean content) = Ok (Some (JObj d)) →
  dict_get (py "quiz") d = Some (JArr qs) → qs ≠ [] →
  Forall (fun q => ∃ a opts, question_with q a opts) qs →
  ∃ qs', generate_quiz env text n
           = ((Some (JArr qs'), None), [request_for env text n]) ∧
    Forall2 (fun q q' => ∃ a opts opts',
      question_with q a opts ∧ question_with q' a opts' ∧ opts' ≡ₚ opts)
      qs qs'.
Proof.
  intros Ht Hk Hpost Hstatus Hjson Hbody Hparse Hquiz Hne Hqs.
  destruct (shuffle_options_questions env qs 0 Hqs) as (qs' & Hs & HF).
  exists qs'. split; [|done].
  rewrite generate_quiz_calls by done. f_equal.
  unfold attempt. rewrite Hpost. cbn [mbind result_bind].
  rewrite bool_decide_eq_false_2 by (by rewrite Hstatus; intros []).
  rewrite Hjson. cbn [mbind result_bind].
  rewrite (read_reply_carries env body content Hbody).
  unfold respond. rewrite Hparse. cbn [mbind result_bind get_default].
  rewrite Hquiz. cbn [from_option id].
  destruct qs as [|q0 qs0]; [done|].
  cbn [truthy negb iterate mbind result_bind].
  rewrite Hs. done.
Qed.

Lemma well_formed_reply_gives_quiz_witness :
  ∃ qs', generate_quiz Sample.env (py "Some study text.") 2
           = ((Some (JArr qs'), None),
              [request_for Sample.env (py "Some study text.") 2]) ∧
    Forall2 (fun q q' => ∃ a opts opts',
      question_with q a opts ∧ question_with q' a opts' ∧ opts' ≡ₚ opts)
      [Sample.q1; Sample.q2] qs'.
Proof.
  refine (well_formed_reply_gives_quiz Sample.env (py "Some study text.") 2
    {| status_code := 200;
       json := Ok (reply_with (fenced [newline] [newline] Sample.payload)) |}
    (reply_with (fenced [newline] [newline] Sample.payload))
    (fenced [newline] [newline] Sample.payload)
    [(py "quiz", JArr [Sample.q1; Sample.q2])] [Sample.q1; Sample.q2]
    in_text_not_whitespace _ eq_refl eq_refl eq_refl _ _ eq_refl _ _).
  - done.
  - by eexists _, _, _.
  - by vm_compute.
  - done.
  - repeat constructor; eexists _, _, _; (split; [reflexivity|]);
      (split; [by eexists|]); split; reflexivity.
Defined.

Lemma dict_set_keys k v d :
  is_Some (dict_get k d) → (dict_set k v d).*1 = d.*1.
Proof.
  induction d as [|[k' v'] d IH]; cbn [dict_get dict_set].
  - by intros [? ?].
  - case_bool_decide; [done|]. intros Hs. cbn [fmap list_fmap fst].
    cbn [fmap] in IH. by rewrite IH.
Qed.

Lemma shuffle_options_Next env q rest k qs' :
  shuffle_options env (q :: rest) k = Ok (Next qs') →
  ∃ d correct options shuffled k' rest',
    q = JObj d ∧
    dict_get (py "answer") d = Some correct ∧
    dict_get (py "options") d = Some options ∧
    random_shuffle (draws env) options k = Ok (shuffled, k') ∧
    shuffle_options env rest k' = Ok (Next rest') ∧
    qs' = JObj (dict_set (py "answer") correct
                  (dict_set (py "options") shuffled d)) :: rest'.
Proof.
  cbn [shuffle_options].
  destruct (has_keys q) as [[|]|] eqn:Hk; [|done..].
  cbn [mbind result_bind].
  destruct (has_keys_true q Hk) as [(d & -> & _)|Hraise].
  2:{ destruct (Hraise (py "answer")) as [b ->]. done. }
  cbn [subscript_key].
  destruct (dict_get (py "answer") d) as [correct|] eqn:Ea; [|done].
  cbn [mbind result_bind].
  destruct (dict_get (py "options") d) as [options|] eqn:Eo; [|done].
  cbn [mbind result_bind].
  destruct (random_shuffle (draws env) options k) as [[shuffled k']|] eqn:Es;
    [|done].
  cbn [mbind result_bind store_key].
  destruct (shuffle_options env rest k') as [[rest'|]|] eqn:Er; [|done..].
  cbn [mbind result_bind]. intros [= <-].
  by exists d, correct, options, shuffled, k', rest'.
Qed.

(** X4. When the shuffle loop runs to its end, the quiz has the questions
    it had, in their order, each with its keys in their order and with every
    value but the one under [options] as it was: the question text, the
    answer and the explanation are not touched. *)
Theorem shuffle_touches_options_only env (qs qs' : list JSON) (k : nat) :
  shuffle_options env qs k = Ok (Next qs') →
  Forall2 (fun q q' =>
    ∃ d d', q = JObj d ∧ q' = JObj d' ∧ d'.*1 = d.*1 ∧
            ∀ key, key ≠ py "options" → dict_get key d' = dict_get key d)
    qs qs'.
Proof.
  revert qs' k. induction qs as [|q rest IH]; intros qs' k.
  { cbn [shuffle_options]. intros [= <-]. constructor. }
  intros H. apply shuffle_options_Next in H
    as (d & correct & options & shuffled & k' & rest' & -> & Ea & Eo & _ & Er & ->).
  constructor; [|by eapply IH].
  eexists _, _. split; [done|]. split; [done|]. split.
  - rewrite dict_set_keys.
    + apply dict_set_keys. by rewrite Eo.
    + rewrite dict_get_set_ne by done. by rewrite Ea.
  - intros key Hkey. destruct (decide (key = py "answer")) as [->|Hne].
    + by rewrite dict_get_set_eq.
    + by rewrite !dict_get_set_ne.
Qed.

Lemma shuffle_touches_options_only_witness :
  ∃ qs', shuffle_options Sample.env [Sample.q1; Sample.q2] 0 = Ok (Next qs') ∧
    Forall2 (fun q q' =>
      ∃ d d', q = JObj d ∧ q' = JObj d' ∧ d'.*1 = d.*1 ∧
              ∀ key, key ≠ py "options" → dict_get key d' = dict_get key d)
      [Sample.q1; Sample.q2] qs'.
Proof.
  eexists. split; [reflexivity|].
  apply (shuffle_touches_options_only Sample.env [Sample.q1; Sample.q2] _ 0).
  reflexivity.
Defined.

(** What [generate_quiz] returns has one of the two shapes. *)
Lemma generate_quiz_quiz_or_error env text n :
  quiz_or_error (generate_quiz env text n).1.
Proof.
  unfold generate_quiz.
  destruct (_ || _); [by apply error_pair|].
  destruct (negb _); [by apply error_pair|].
  cbn [fst]. apply handle_quiz_or_error, attempt_quiz_or_error.
Qed.

End RequestFacts.

(** ** More on the buttons *)

Module ButtonFacts.
Import StrFacts BackendFacts SessionFacts ReplyFacts RequestFacts.

(** X9. The Add Paragraph button does nothing with an empty or
    all-whitespace input; any other input is stored stripped, after the
    paragraphs already there, and what is stored is not empty and has no
    whitespace left to strip. Nothing else in the session changes and no
    request is sent. *)
Theorem add_paragraph_effect env (s : SessionState) (user_input : pystr) :
  (whitespace user_input → on_click env s (add_para user_input) = (s, [])) ∧
  (¬ whitespace user_input →
     on_click env s (add_para user_input)
       = (set_paragraphs (paragraphs s ++ [strip user_input]) s, []) ∧
     strip user_input ≠ [] ∧
     strip (strip user_input) = strip user_input).
Proof.
  cbn [on_click].
  destruct (truthy (JStr user_input) && truthy (JStr (strip user_input))) eqn:E.
  - apply andb_true_iff in E as [E1 E2]. cbn [truthy] in E1, E2.
    apply negb_true_iff, bool_decide_eq_false in E2.
    split; [by intros H%strip_whitespace|].
    intros _. split; [done|]. split; [done|]. apply strip_idempotent.
  - split; [done|]. intros H. apply blank_guard_false in H.
    rewrite <- negb_andb, E in H. done.
Qed.

(** X10. The Generate Quiz button of a paragraph sends what
    [generate_quiz] sends and then does one of two things. If an error came
    back the session is left exactly as it was. If a quiz came back it is
    stored, non-empty and with the three keys in every question, the
    answers are emptied, the results are hidden, the quiz is marked ready
    and the page becomes the quiz page; paragraphs, history and settings
    stay. *)
Theorem generate_button_effect env (s : SessionState) (i : nat) (para : pystr) :
  paragraphs s !! i = Some para →
  let returned := generate_quiz env para (num_questions s) in
  let s' := (on_click env s (gen_quiz i)).1 in
  (on_click env s (gen_quiz i)).2 = returned.2 ∧
  ((∃ msg, returned.1 = (None, Some msg) ∧ msg ≠ [] ∧ s' = s) ∨
   (∃ qs, returned.1 = (Some (JArr qs), None) ∧
      qs ≠ [] ∧ Forall has_all_keys qs ∧
      quiz s' = qs ∧ user_answers s' = ∅ ∧ show_results s' = false ∧
      quiz_ready s' = true ∧ page s' = PageQuiz ∧ same_settings s s')).
Proof.
  intros Hi. cbn zeta. cbn [on_click]. rewrite Hi. unfold on_gen_quiz.
  pose proof (generate_quiz_quiz_or_error env para (num_questions s)) as H.
  destruct (generate_quiz env para (num_questions s)) as [[quiz error] sent].
  cbn [fst snd] in *.
  destruct H as [(qs & [= -> ->] & Hne & Hk)|(msg & [= -> ->] & Hne)].
  - cbn [from_option truthy]. destruct qs as [|q qs]; [done|].
    cbn [fst snd]. split; [done|]. right. exists (q :: qs).
    repeat split; done.
  - cbn [from_option truthy]. rewrite bool_decide_eq_false_2 by done.
    cbn [negb fst snd]. split; [done|]. left. by exists msg.
Qed.

Lemma generate_button_effect_witness :
  let s := set_paragraphs [py "Some study text."] init_session_state in
  let s' := (on_click Sample.env s (gen_quiz 0)).1 in
  length (quiz s') = 2%nat ∧ page s' = PageQuiz ∧ user_answers s' = ∅.
Proof.
  cbn zeta.
  destruct (generate_button_effect Sample.env
              (set_paragraphs [py "Some study text."] init_session_state) 0
              (py "Some study text.") eq_refl)
    as [_ [(msg & E & _)|(qs & E & _ & _ & -> & -> & _ & _ & -> & _)]].
  - by vm_compute in E.
  - vm_compute in E. injection E as <-. done.
Defined.

Lemma answered_lookup ua i :
  filter (fun kv : nat * option pystr => is_Some kv.2) ua !! i
  = (a ← get ua i; Some (Some a)).
Proof.
  unfold get. destruct (ua !! i) as [[a|]|] eqn:E; cbn.
  - apply map_lookup_filter_Some. split; [done|]. by eexists.
  - apply map_lookup_filter_None. right. intros x. rewrite E.
    intros [= <-] [? ?]. done.
  - apply map_lookup_filter_None. by left.
Qed.

(** X11. Storing the value of a radio under the index of its question
    changes that entry only, a later value for the same question replaces
    the earlier one, and the count of answered questions goes up by one
    exactly when a selection takes the place of none (and down by one when
    no selection takes the place of one). *)
Theorem select_counts (s : SessionState) (i : nat) (answer : option pystr) :
  let s' := select i answer s in
  get (user_answers s') i = answer ∧
  (∀ j, j ≠ i → get (user_answers s') j = get (user_answers s) j) ∧
  (∀ earlier, select i answer (select i earlier s) = s') ∧
  answered s' + match get (user_answers s) i with Some _ => 1 | None => 0 end
    = answered s + match answer with Some _ => 1 | None => 0 end ∧
  quiz s' = quiz s ∧ page s' = page s ∧ show_results s' = show_results s.
Proof.
  cbn zeta. unfold select. cbn [user_answers set_user_answers].
  split; [|split; [|split; [|split; [|done]]]].
  - unfold get. by rewrite lookup_insert_eq.
  - intros j Hj. unfold get. by rewrite lookup_insert_ne.
  - intros earlier. unfold set_user_answers. cbn. by rewrite insert_insert_eq.
  - unfold answered. cbn [user_answers set_user_answers].
    pose proof (answered_lookup (user_answers s) i) as Hl.
    destruct answer as [a|].
    + rewrite map_filter_insert_True by by eexists.
      rewrite map_size_insert, Hl.
      destruct (get (user_answers s) i); cbn; lia.
    + rewrite map_filter_insert_False by by intros [? ?].
      rewrite map_filter_delete, map_size_delete, Hl.
      destruct (get (user_answers s) i) eqn:E; cbn; [|lia].
      assert (size (filter (fun kv : nat * option pystr => is_Some kv.2)
                      (user_answers s)) ≠ 0); [|lia].
      intros H0%map_size_empty_inv. rewrite H0 in Hl.
      by rewrite lookup_empty in Hl.
Qed.



End ButtonFacts.

(** ** More on the results and the history page *)

Module ViewFacts.
Import GradingFacts.



Lemma max_fold (l : list float) : ∀ x,
  let b := foldl (fun m y => if (m <? y)%float then y else m) x l in
  b = x ∨ b ∈ l.
Proof.
  induction l as [|y l IH]; intros x; cbn zeta; cbn [foldl]; [by left|].
  destruct (IH (if (x <? y)%float then y else x)) as [E|Hin].
  - cbn zeta in E. rewrite E. destruct (x <? y)%float; [right; by left|by left].
  - right. by right.
Qed.

(** X14. The statistics of the history. On an empty ledger the average
    fails with a division by zero and the best score with [max] of an empty
    sequence, and only there, however [sum] rounds; the sidebar and the history page compute them
    under a guard, so what they show is never an error, and they show the
    number of records. On a ledger with records the best score is the score
    of one of them. *)
Theorem statistics_of_the_ledger (sum : list float → float)
    (s : SessionState) :
  let h := quiz_history s in
  (average sum h = Raise (Builtin ZeroDivisionError) ↔ h = []) ∧
  (best h = Raise (Builtin ValueError) ↔ h = []) ∧
  (sidebar_stats sum s = None ↔ h = []) ∧
  (∀ n a, sidebar_stats sum s = Some (n, a) →
     n = length h ∧ h ≠ [] ∧ ∃ x, a = Ok x) ∧
  (∀ n a b, history_summary sum s = Some (n, a, b) →
     n = length h ∧ h ≠ [] ∧ page s = PageHistory ∧
     (∃ x, a = Ok x) ∧ (∃ y, b = Ok y ∧ ∃ r, r ∈ h ∧ score r = y)).
Proof.
  cbn zeta. unfold sidebar_stats, history_summary.
  destruct (quiz_history s) as [|r0 h] eqn:Eh.
  { cbn [nonempty]. rewrite andb_false_r. repeat split; done. }
  cbn [nonempty]. rewrite andb_true_r.
  assert (∃ top, best (r0 :: h) = Ok top ∧ ∃ r, r ∈ r0 :: h ∧ score r = top)
    as (top & Eb & Hat).
  { unfold best. cbn [map]. eexists. split; [done|].
    destruct (max_fold (map score h) (score r0)) as [E|Hin]; cbn zeta in *.
    - exists r0. split; [by left|done].
    - apply (list_elem_of_fmap_1 score) in Hin as (r & E & Hr).
      exists r. split; [by right|done]. }
  split; [done|]. split; [by rewrite Eb|]. split; [done|]. split.
  { intros n a [= <- <-]. split; [done|]. split; [done|]. by eexists. }
  intros n a b. unfold on_page. case_bool_decide as Hp; [|done].
  intros [= <- <- <-]. split; [done|]. split; [done|]. split; [done|].
  split; [by eexists|]. exists top. done.
Qed.

Lemma rev_reverse {A} (l : list A) : rev l = reverse l.
Proof.
  induction l as [|x l IH]; [done|]. cbn [rev]. by rewrite reverse_cons, IH.
Qed.

(** X15. The rows of the history page: there is one per record, the newest
    first; the row at position [j] from the top is numbered [len - j], and
    the row numbered [idx] shows the [idx]-th record taken, so the numbers
    run from the number of records down to 1. *)
Theorem history_rows_numbering (h : list HistoryRecord) :
  length (history_rows h) = length h ∧
  (∀ j idx rec, history_rows h !! j = Some (idx, rec) →
     idx = length h - j ∧ 1 ≤ idx ≤ length h ∧ h !! (idx - 1) = Some rec) ∧
  (∀ k rec, h !! k = Some rec →
     history_rows h !! (length h - 1 - k) = Some (S k, rec)).
Proof.
  unfold history_rows. rewrite length_imap, length_rev.
  split; [done|]. split.
  - intros j idx rec. rewrite list_lookup_imap, rev_reverse.
    destruct (reverse h !! j) as [r|] eqn:E; [|done].
    apply reverse_lookup_Some in E as [E Hj]. intros [= <- <-].
    split; [done|]. split; [lia|].
    by replace (length h - j - 1) with (length h - S j) by lia.
  - intros k rec Hk. pose proof (lookup_lt_Some _ _ _ Hk) as Hlt.
    rewrite list_lookup_imap, rev_reverse, reverse_lookup by lia.
    replace (length h - S (length h - 1 - k)) with k by lia.
    rewrite Hk. cbn. do 2 f_equal. lia.
Qed.

End ViewFacts.
